(** * yi-html-preview: a shallow embedding of [src/extension.ts]

    The extension keeps one webview panel per HTML document, refreshes it
    on edits through a debounce timer, and rewrites the previewed markup so
    that it carries a [<base href=...>] tag.  This file embeds the string
    functions of the extension host, the copy of the injector that lives in
    the embedded client script, and the event handlers registered by
    [activate] as transitions over an explicit host state.

    Strings are [String.string]: sequences of 8-bit code units, read as the
    Latin-1 range of JavaScript's UTF-16 code units.  On that range
    [toLowerCase] maps one unit to one unit.  The injector is embedded a
    second time on lists of 16-bit code units, where it does not. *)

From Stdlib Require Import ZArith Ascii String Lia Bool.
From stdpp Require Import base option gmap strings list.

Local Open Scope Z_scope.

(* stdpp freezes [String.append] under [simpl]; the proofs below compute
   with it on literal prefixes. *)
#[local] Arguments String.append !_ _ / : simpl nomatch.

(** ** JavaScript string primitives used by the extension *)

Module JS.

Notation "s1 +++ s2" := (String.append s1 s2)
  (at level 60, right associativity).

Definition chr (c : ascii) : string := String c EmptyString.

(** The double quote character, code 34. *)
Definition dquote : ascii := "034"%char.
Definition amp : ascii := "&"%char.
Definition gt : ascii := ">"%char.

(** [String.prototype.toLowerCase] on one Latin-1 code unit: [A-Z] and
    the accented capitals 0xC0..0xDE (without the multiplication sign
    0xD7) move up by 32; every other unit is kept. *)
Definition lowerChar (c : ascii) : ascii :=
  let n := N_of_ascii c in
  if ((65 <=? n) && (n <=? 90))%N
     || ((192 <=? n) && (n <=? 222) && negb (n =? 215))%N
  then ascii_of_N (n + 32)
  else c.

Fixpoint toLowerCase (s : string) : string :=
  match s with
  | EmptyString => EmptyString
  | String c r => String (lowerChar c) (toLowerCase r)
  end.

Fixpoint drop (n : nat) (s : string) : string :=
  match n, s with
  | O, _ => s
  | S _, EmptyString => EmptyString
  | S k, String _ r => drop k r
  end.

Fixpoint take (n : nat) (s : string) : string :=
  match n, s with
  | O, _ => EmptyString
  | S _, EmptyString => EmptyString
  | S k, String c r => String c (take k r)
  end.

(** Relative index of [String.prototype.slice]: negative counts from the
    end, everything is clamped to [0, length]. *)
Definition relIndex (len i : Z) : nat :=
  Z.to_nat (if i <? 0 then Z.max (len + i) 0 else Z.min i len).

(** [s.slice(b, e)]; [e = None] is the one-argument form [s.slice(b)]. *)
Definition slice (s : string) (b : Z) (e : option Z) : string :=
  let len := Z.of_nat (String.length s) in
  let from := relIndex len b in
  let to := match e with Some e => relIndex len e | None => String.length s end in
  take (to - from) (drop from s).

(** [s.startsWith(pat)]. *)
Fixpoint startsWith (s pat : string) {struct pat} : bool :=
  match pat, s with
  | EmptyString, _ => true
  | String _ _, EmptyString => false
  | String p pr, String c r => Ascii.eqb c p && startsWith r pr
  end.

(** First position, counted from [k], at which [pat] is a prefix. *)
Fixpoint search (pat s : string) (k : nat) : option nat :=
  if startsWith s pat then Some k
  else match s with
       | EmptyString => None
       | String _ r => search pat r (S k)
       end.

(** [s.indexOf(pat, from)]: [-1] when there is no occurrence at or after
    the clamped start position. *)
Definition indexOf (s pat : string) (from : Z) : Z :=
  let f := Z.to_nat (Z.min (Z.max from 0) (Z.of_nat (String.length s))) in
  match search pat (drop f s) f with
  | Some k => Z.of_nat k
  | None => -1
  end.

(** [s.endsWith(suffix)]. *)
Definition endsWith (s suffix : string) : bool :=
  let n := String.length s in
  let m := String.length suffix in
  (m <=? n)%nat && String.eqb (drop (n - m) s) suffix.

(** [s.replace(/c/g, by)] for a one-character pattern and a replacement
    without [$] patterns. *)
Fixpoint replaceChar (c : ascii) (by_ : string) (s : string) : string :=
  match s with
  | EmptyString => EmptyString
  | String x r =>
      if Ascii.eqb x c then by_ +++ replaceChar c by_ r
      else String x (replaceChar c by_ r)
  end.

Fixpoint hasChar (c : ascii) (s : string) : bool :=
  match s with
  | EmptyString => false
  | String x r => Ascii.eqb x c || hasChar c r
  end.

(** Case-insensitive literal match of a lower-case pattern at the start
    of [s] (the [i] flag of a regular expression without the [u] flag,
    on Latin-1 units). *)
Fixpoint matchesCI (pat s : string) {struct pat} : bool :=
  match pat, s with
  | EmptyString, _ => true
  | String _ _, EmptyString => false
  | String p pr, String c r => Ascii.eqb (lowerChar c) p && matchesCI pr r
  end.

(** The regular expression [/<base[^>]*>/i] matches at the start of [s]:
    the literal [<base] is there and some [>] follows it. *)
Definition baseTagStarts (s : string) : bool :=
  matchesCI "<base" s && hasChar gt s.

(** [s.replace(/<base[^>]*>/gi, '')].  The scan is either outside a match
    or inside one; inside, it drops units up to and including the first
    [>], which [baseTagStarts] has checked to exist. *)
Fixpoint removeBaseGo (inTag : bool) (s : string) : string :=
  match s with
  | EmptyString => EmptyString
  | String c r =>
      if inTag then
        if Ascii.eqb c gt then removeBaseGo false r else removeBaseGo true r
      else if baseTagStarts s then removeBaseGo true r
      else String c (removeBaseGo false r)
  end.

Definition removeBaseTags (s : string) : string := removeBaseGo false s.

(** [s.match(/<base[^>]*>/gi)] as a list (the empty list for [null]):
    the matches the removal pass deletes, in order. *)
Fixpoint baseTagsGo (cur : option string) (s : string) : list string :=
  match s with
  | EmptyString => []
  | String c r =>
      match cur with
      | Some acc =>
          if Ascii.eqb c gt then (acc +++ chr c) :: baseTagsGo None r
          else baseTagsGo (Some (acc +++ chr c)) r
      | None =>
          if baseTagStarts s then baseTagsGo (Some (chr c)) r
          else baseTagsGo None r
      end
  end.

Definition baseTags (s : string) : list string := baseTagsGo None s.

End JS.
Import JS.

(** ** Pure functions of the extension host *)

(** [escapeHtmlForAttributeValue], lines 8-13.  The parameter is typed
    [string], so the [typeof] guard never fires. *)
Definition escapeHtmlForAttributeValue (unsafe : string) : string :=
  replaceChar dquote "&quot;" (replaceChar amp "&amp;" unsafe).

(** [injectBaseHref], lines 121-134.  Both parameters are typed [string]:
    the guard reduces to the emptiness test on [baseHrefTag], and
    [rawHtml || ''] is [rawHtml]. *)
Definition injectBaseHref (rawHtml baseHrefTag : string) : string :=
  if String.eqb baseHrefTag "" then rawHtml
  else
    let cleanHtml := removeBaseTags rawHtml in
    let headTagStart := indexOf (toLowerCase cleanHtml) "<head>" 0 in
    let fallback := baseHrefTag +++ cleanHtml in
    if negb (headTagStart =? -1) then
      let headTagEndPos := indexOf cleanHtml ">" headTagStart in
      if negb (headTagEndPos =? -1) then
        slice cleanHtml 0 (Some (headTagEndPos + 1)) +++ baseHrefTag
          +++ slice cleanHtml (headTagEndPos + 1) None
      else fallback
    else fallback.

(** The whole string is one match of [/<base[^>]*>/i]: it starts with the
    literal and its first [>] is its last unit. *)
Fixpoint firstGtIsLast (s : string) : bool :=
  match s with
  | EmptyString => false
  | String c r => if Ascii.eqb c gt then String.eqb r "" else firstGtIsLast r
  end.

Definition isBaseTag (t : string) : bool :=
  matchesCI "<base" t && firstGtIsLast t.

(** Values the untyped client script can meet in a message or a constant:
    a string, or an absent value. *)
Inductive jsval : Type :=
  | JsUndefined
  | JsNull
  | JsString (s : string).

Definition truthy (v : jsval) : bool :=
  match v with
  | JsString s => negb (String.eqb s "")
  | _ => false
  end.

Definition isString (v : jsval) : bool :=
  match v with
  | JsString _ => true
  | _ => false
  end.

(** [injectBaseHrefIntoString], lines 242-255: the copy of the injector
    inside the script of the host page. *)
Definition injectBaseHrefIntoString (rawHtml baseTag : jsval) : jsval :=
  if negb (truthy baseTag) || negb (isString rawHtml) then
    if truthy rawHtml then rawHtml else JsString ""
  else
    match rawHtml, baseTag with
    | JsString raw, JsString tag =>
        let cleanHtml := removeBaseTags raw in
        let headTagStart := indexOf (toLowerCase cleanHtml) "<head>" 0 in
        if negb (headTagStart =? -1) then
          let headTagEndPos := indexOf cleanHtml ">" headTagStart in
          if negb (headTagEndPos =? -1) then
            JsString (slice cleanHtml 0 (Some (headTagEndPos + 1)) +++ tag
                        +++ slice cleanHtml (headTagEndPos + 1) None)
          else JsString (tag +++ cleanHtml)
        else JsString (tag +++ cleanHtml)
    | _, _ => JsString ""
    end.



(** The reading side of an attribute value: what an HTML attribute parser
    does with the two character references the escaper emits.  One pass,
    left to right; [skip] counts the units of a reference still to be
    consumed.  This follows the specification's description of the parser;
    the parser itself belongs to the browser. *)
Fixpoint decodeAttrGo (skip : nat) (s : string) : string :=
  match s with
  | EmptyString => EmptyString
  | String c r =>
      match skip with
      | S k => decodeAttrGo k r
      | O =>
          if startsWith s "&amp;" then String amp (decodeAttrGo 4 r)
          else if startsWith s "&quot;" then String dquote (decodeAttrGo 5 r)
          else String c (decodeAttrGo 0 r)
      end
  end.

Definition decodeAttributeValue (s : string) : string := decodeAttrGo 0 s.

(** What the escaper does to one unit. *)
Definition escapeChar (c : ascii) : string :=
  if Ascii.eqb c amp then "&amp;"
  else if Ascii.eqb c dquote then "&quot;"
  else chr c.

Fixpoint escapeEach (s : string) : string :=
  match s with
  | EmptyString => EmptyString
  | String c r => escapeChar c +++ escapeEach r
  end.

(** The two replacements in the other order, for comparison. *)
Definition escapeQuoteFirst (unsafe : string) : string :=
  replaceChar amp "&amp;" (replaceChar dquote "&quot;" unsafe).

(** ** The extension host: panels, documents, timer *)

(** A [vscode.Uri], as far as the extension looks at it: its scheme and
    the text [toString()] gives. *)
Record Uri : Type := mkUri {
  scheme : string;
  uriText : string
}.

(** A [vscode.TextDocument]. *)
Record TextDocument : Type := mkDoc {
  uri : Uri;
  languageId : string;
  fileName : string;
  getText : string;
  isClosed : bool
}.

(** A [vscode.WebviewPanel] with its webview.  [viewType] is the first
    argument of [createWebviewPanel], for which the extension passes the
    document's URI string; the dispose handler of the panel deletes the
    registry entry under that same string. *)
Record WebviewPanel : Type := mkPanel {
  viewType : string;
  title : string;
  html : string;
  visible : bool;
  disposed : bool
}.

(** The one message shape the host posts into a webview. *)
Record Message : Type := mkMessage {
  command : string;
  msgHtml : string
}.

(** What the extension asks of the editor, in order. *)
Inductive Effect : Type :=
  | ShowInformationMessage (text : string)
  | ShowErrorMessage (text : string)
  | CreateWebviewPanel (p : nat) (viewType title : string)
  | Reveal (p : nat)
  | SetHtml (p : nat) (page : string)
  | PostMessage (p : nat) (m : Message)
  | Dispose (p : nat).

(** A pending [setTimeout] callback: when it is due, and the panel and the
    document its closure holds. *)
Record Timer : Type := mkTimer {
  deadline : Z;
  timerPanel : nat;
  timerDocument : string
}.

(** The module state ([previewPanels], [updateTimeout]) together with the
    part of the editor the handlers read and write: the panel objects, the
    open documents by URI string, the clock in milliseconds, the number of
    random draws made so far, and the effects issued so far. *)
Record State : Type := mkState {
  previewPanels : gmap string nat;
  updateTimeout : option Timer;
  panels : gmap nat WebviewPanel;
  documents : gmap string TextDocument;
  clock : Z;
  draws : nat;
  effects : list Effect
}.

(** Events the editor delivers to the extension. *)
Inductive Event : Type :=
  | ShowPreviewCommand (activeEditor : option string)
  | DocumentOpened (key : string) (doc : TextDocument)
  | DocumentChanged (key : string) (newText : string)
  | DocumentClosed (key : string)
  | PanelClosed (p : nat)
  | PanelViewState (p : nat) (nowVisible : bool)
  | Tick
  | Deactivate.

Definition emit (e : Effect) (s : State) : State :=
  mkState (previewPanels s) (updateTimeout s) (panels s) (documents s)
          (clock s) (draws s) (effects s ++ [e]).

Definition setPanels (ps : gmap nat WebviewPanel) (s : State) : State :=
  mkState (previewPanels s) (updateTimeout s) ps (documents s)
          (clock s) (draws s) (effects s).

Definition setRegistry (m : gmap string nat) (s : State) : State :=
  mkState m (updateTimeout s) (panels s) (documents s)
          (clock s) (draws s) (effects s).

Definition setTimer (t : option Timer) (s : State) : State :=
  mkState (previewPanels s) t (panels s) (documents s)
          (clock s) (draws s) (effects s).

Definition setDocuments (d : gmap string TextDocument) (s : State) : State :=
  mkState (previewPanels s) (updateTimeout s) (panels s) d
          (clock s) (draws s) (effects s).

Definition setClock (t : Z) (s : State) : State :=
  mkState (previewPanels s) (updateTimeout s) (panels s) (documents s)
          t (draws s) (effects s).

Definition setDraws (n : nat) (s : State) : State :=
  mkState (previewPanels s) (updateTimeout s) (panels s) (documents s)
          (clock s) n (effects s).

Definition withHtml (page : string) (p : WebviewPanel) : WebviewPanel :=
  mkPanel (viewType p) (title p) page (visible p) (disposed p).

Definition withVisible (v : bool) (p : WebviewPanel) : WebviewPanel :=
  mkPanel (viewType p) (title p) (html p) v (disposed p).

Definition withDisposed (p : WebviewPanel) : WebviewPanel :=
  mkPanel (viewType p) (title p) (html p) (visible p) true.

Definition withText (t : string) (d : TextDocument) : TextDocument :=
  mkDoc (uri d) (languageId d) (fileName d) t (isClosed d).

Definition withClosed (d : TextDocument) : TextDocument :=
  mkDoc (uri d) (languageId d) (fileName d) (getText d) true.

Definition initialState (docs : gmap string TextDocument) (t0 : Z) : State :=
  mkState ∅ None ∅ docs t0 0 [].

Definition updateContent (text : string) : Message :=
  mkMessage "updateContent" text.

Definition charAt (s : string) (i : nat) : string :=
  match String.get i s with
  | Some c => chr c
  | None => ""
  end.

Definition possible : string :=
  "ABCDEFGHIJKLMNOPQRSTUVWXYZabcdefghijklmnopqrstuvwxyz0123456789".

(** Collaborators of the editor and the runtime.  [joinPath] and
    [asWebviewUri] answer [None] when the call throws; [random i] is the
    [i]-th value of [Math.floor(Math.random() * possible.length)]; the
    [page...] fields are the literal stretches of the page template between
    its holes, lines 197-332, and [styles] is the style sheet, lines
    153-195. *)
Class Host : Type := mkHost {
  joinPath : Uri -> string -> option Uri;
  asWebviewUri : nat -> Uri -> option Uri;
  cspSource : nat -> string;
  basename : string -> string;
  jsonStringify : string -> string;
  random : nat -> nat;
  styles : string;
  pageBeforeCsp : string;
  pageBeforeStyleNonce : string;
  pageBeforeStyles : string;
  pageBeforeSrcdoc : string;
  pageBeforeScriptNonce : string;
  pageBeforeBaseTag : string;
  pageEnd : string
}.

Section HostModel.

Context `{Host}.

(** [getBaseHrefString], lines 105-119.  The parameter is typed
    [vscode.Uri], so [!documentUri] is false; [try]/[catch] is the
    [option] bind. *)
Definition getBaseHrefString (webview : nat) (documentUri : Uri) : string :=
  if negb (String.eqb (scheme documentUri) "file") then ""
  else
    match
      docDirUri ← joinPath documentUri "..";
      webviewUri ← asWebviewUri webview docDirUri;
      let href := if endsWith (uriText webviewUri) "/"
                  then uriText webviewUri
                  else uriText webviewUri +++ "/" in
      Some ("<base href=" +++ chr dquote +++ href +++ chr dquote +++ ">")
    with
    | Some tag => tag
    | None => ""
    end.

(** [getNonce], lines 348-355. *)
Fixpoint nonceLoop (n seed : nat) (text : string) : string :=
  match n with
  | O => text
  | S n' => nonceLoop n' (S seed) (text +++ charAt possible (random seed))
  end.

Definition getNonce (seed : nat) : string := nonceLoop 32 seed "".

Definition cspOf (webview : nat) (nonce : string) : string :=
  "default-src 'none'"
  +++ "; " +++ "style-src " +++ cspSource webview +++ " 'unsafe-inline' https: data:"
  +++ "; " +++ "font-src " +++ cspSource webview +++ " https: data:"
  +++ "; " +++ "img-src " +++ cspSource webview +++ " https: data:"
  +++ "; " +++ "script-src 'nonce-" +++ nonce +++ "' 'unsafe-inline' "
           +++ cspSource webview +++ " https:"
  +++ "; " +++ "frame-src 'self' data: blob: " +++ cspSource webview
  +++ "; " +++ "connect-src 'none'".

(** [getWebviewHtml], lines 136-333; [seed] is the number of random
    draws made before the call. *)
Definition getWebviewHtml (webview : nat) (rawUserHtml : string)
    (documentUri : Uri) (seed : nat) : string :=
  let nonce := getNonce seed in
  let baseHrefTagString := getBaseHrefString webview documentUri in
  let initialHtmlWithBase := injectBaseHref rawUserHtml baseHrefTagString in
  let escapedForInitialSrcdocAttribute :=
    escapeHtmlForAttributeValue initialHtmlWithBase in
  let csp := cspOf webview nonce in
  "<!DOCTYPE html>" +++ pageBeforeCsp +++ csp
    +++ pageBeforeStyleNonce +++ nonce
    +++ pageBeforeStyles +++ styles
    +++ pageBeforeSrcdoc +++ escapedForInitialSrcdocAttribute
    +++ pageBeforeScriptNonce +++ nonce
    +++ pageBeforeBaseTag +++ jsonStringify baseHrefTagString
    +++ pageEnd.

(** [updateWebviewContent], lines 336-346.  A panel handle always names
    an allocated panel object; for a handle that names none the model
    does nothing.  The effects record the requests made to the host; what
    the host does with a request that names a disposed panel is outside
    the model. *)
Definition updateWebviewContent (panel : nat) (document : TextDocument)
    (forceHtmlReset : bool) (s : State) : State :=
  let htmlContent := getText document in
  match panels s !! panel with
  | None => s
  | Some pn =>
      if forceHtmlReset || String.eqb (html pn) "" then
        let page := getWebviewHtml panel htmlContent (uri document) (draws s) in
        emit (SetHtml panel page)
          (setDraws (draws s + 32)
             (setPanels (<[panel := withHtml page pn]> (panels s)) s))
      else
        emit (PostMessage panel (updateContent htmlContent)) s
  end.

(** [panel.dispose()] with the [onDidDispose] handler of lines 59-65:
    the handler runs once, when the panel goes away, and deletes the
    entry under the URI string its closure holds. *)
Definition disposePanel (panel : nat) (s : State) : State :=
  match panels s !! panel with
  | None => s
  | Some pn =>
      if disposed pn then s
      else
        emit (Dispose panel)
          (setRegistry (delete (viewType pn) (previewPanels s))
             (setPanels (<[panel := withDisposed pn]> (panels s)) s))
  end.

(** The command handler, lines 18-79. *)
Definition showPreview (activeEditor : option string) (s : State) : State :=
  match activeEditor with
  | None => emit (ShowInformationMessage "No active HTML editor found.") s
  | Some documentUriString =>
      match documents s !! documentUriString with
      | None => s
      | Some document =>
          if negb (String.eqb (languageId document) "html") then
            emit (ShowErrorMessage "Current file is not an HTML file.") s
          else
            match previewPanels s !! documentUriString with
            | Some existingPanel =>
                updateWebviewContent existingPanel document false
                  (emit (Reveal existingPanel) s)
            | None =>
                let panel := fresh (dom (panels s)) in
                let ttl := "Yi Preview: " +++ basename (fileName document) in
                let created := mkPanel documentUriString ttl "" true false in
                updateWebviewContent panel document true
                  (setRegistry (<[documentUriString := panel]> (previewPanels s))
                     (emit (CreateWebviewPanel panel documentUriString ttl)
                        (setPanels (<[panel := created]> (panels s)) s)))
            end
      end
  end.

(** The state after the command has created a panel for [k]. *)
Definition created (k : string) (doc : TextDocument) (s : State) : State :=
  let p := fresh (dom (panels s)) in
  let ttl := "Yi Preview: " +++ basename (fileName doc) in
  let page := getWebviewHtml p (getText doc) (uri doc) (draws s) in
  mkState (<[k := p]> (previewPanels s)) (updateTimeout s)
          (<[p := mkPanel k ttl page true false]> (panels s))
          (documents s) (clock s) (draws s + 32)
          (effects s ++ [CreateWebviewPanel p k ttl; SetHtml p page]).

(** [onDidChangeViewState], lines 67-78. *)
Definition viewStateChanged (panel : nat) (nowVisible : bool) (s : State)
    : State :=
  match panels s !! panel with
  | None => s
  | Some pn =>
      if disposed pn then s
      else
        let s1 := setPanels (<[panel := withVisible nowVisible pn]> (panels s)) s in
        if nowVisible then
          match documents s !! viewType pn with
          | Some doc =>
              if isClosed doc then s1
              else updateWebviewContent panel doc false s1
          | None => s1
          end
        else s1
  end.

(** [onDidChangeTextDocument], lines 81-92: the editor has stored the new
    text; the handler replaces the single pending timer. *)
Definition documentChanged (key : string) (newText : string) (s : State)
    : State :=
  match documents s !! key with
  | None => s
  | Some doc =>
      let s1 := setDocuments (<[key := withText newText doc]> (documents s)) s in
      match previewPanels s1 !! key with
      | Some activePanel =>
          if String.eqb (languageId doc) "html" then
            setTimer (Some (mkTimer (clock s1 + 300) activePanel key)) s1
          else s1
      | None => s1
      end
  end.

(** [onDidCloseTextDocument], lines 94-99. *)
Definition documentClosed (key : string) (s : State) : State :=
  match documents s !! key with
  | None => s
  | Some doc =>
      let s1 := setDocuments (<[key := withClosed doc]> (documents s)) s in
      match previewPanels s1 !! key with
      | Some panel => disposePanel panel s1
      | None => s1
      end
  end.

(** [deactivate], lines 357-364.  [forEach] visits the entries in the
    order of their insertion; the fold visits them in the order of the
    map's keys.  The two differ only in the order of the [Dispose] effects. *)
Definition deactivate (s : State) : State :=
  let s1 := setTimer None s in
  let s2 := map_fold (fun _ panel acc => disposePanel panel acc) s1
                     (previewPanels s1) in
  setRegistry ∅ s2.

(** The timer callback of lines 87-90, run when the clock has reached
    its deadline; then the clock moves to [t]. *)
Definition advance (t : Z) (s : State) : State :=
  let s1 :=
    match updateTimeout s with
    | Some tm =>
        if deadline tm <=? t then
          let s' := setTimer None s in
          match documents s !! timerDocument tm with
          | Some doc => updateWebviewContent (timerPanel tm) doc false s'
          | None => s'
          end
        else s
    | None => s
    end in
  setClock (Z.max (clock s) t) s1.

Definition handle (e : Event) (s : State) : State :=
  match e with
  | ShowPreviewCommand editor => showPreview editor s
  | DocumentOpened key doc =>
      match documents s !! key with
      | Some old => if isClosed old
                    then setDocuments (<[key := doc]> (documents s)) s
                    else s
      | None => setDocuments (<[key := doc]> (documents s)) s
      end
  | DocumentChanged key newText => documentChanged key newText s
  | DocumentClosed key => documentClosed key s
  | PanelClosed p => disposePanel p s
  | PanelViewState p v => viewStateChanged p v s
  | Tick => s
  | Deactivate => deactivate s
  end.

(** One event delivered at time [t]: a due timer runs first. *)
Definition step (s : State) (te : Z * Event) : State :=
  handle (snd te) (advance (fst te) s).

Definition run (s : State) (trace : list (Z * Event)) : State :=
  fold_left step trace s.

(** States the extension can be in: it starts with no panel and no timer,
    and every event is delivered at some time. *)
Inductive reachable : State -> Prop :=
  | reachable_initial (docs : gmap string TextDocument) (t0 : Z) :
      reachable (initialState docs t0)
  | reachable_step (s : State) (te : Z * Event) :
      reachable s -> reachable (step s te).

End HostModel.

(** Two editors to run the model on: one whose URI calls succeed, one
    whose [asWebviewUri] throws. *)
Definition sampleHost : Host :=
  mkHost (fun u seg => Some (mkUri (scheme u) (uriText u +++ "/" +++ seg)))
         (fun _ u => Some (mkUri "https" ("https://vscode-resource/" +++ uriText u)))
         (fun _ => "https://vscode-resource")
         (fun f => f) (fun t => t) (fun i => i mod 62)%nat
         "" "" "" "" "" "" "" "".

Definition throwingHost : Host :=
  mkHost (fun u seg => Some (mkUri (scheme u) (uriText u +++ "/" +++ seg)))
         (fun _ _ => None)
         (fun _ => "https://vscode-resource")
         (fun f => f) (fun t => t) (fun i => i mod 62)%nat
         "" "" "" "" "" "" "" "".

Definition pageUri : Uri := mkUri "file" "file:///proj/page.html".

Definition pageDoc : TextDocument :=
  mkDoc pageUri "html" "/proj/page.html" "<p>v0</p>" false.

Definition otherDoc : TextDocument :=
  mkDoc (mkUri "file" "file:///proj/other.html") "html" "/proj/other.html"
        "<p>o0</p>" false.

Definition sampleDocs : gmap string TextDocument :=
  <["file:///proj/page.html" := pageDoc]>
    (<["file:///proj/other.html" := otherDoc]> ∅).

(** Every posted message is an [updateContent] message. *)
Definition soleShape (e : Effect) : Prop :=
  match e with
  | PostMessage _ m => command m = "updateContent"
  | _ => True
  end.

(** What holds of the registry, the panel objects and the timer in every
    reachable state. *)
Record consistent (s : State) : Prop := mkConsistent {
  registered_live : forall k p,
    previewPanels s !! k = Some p ->
    exists pn, panels s !! p = Some pn /\ viewType pn = k /\ disposed pn = false;
  live_registered : forall p pn,
    panels s !! p = Some pn -> disposed pn = false ->
    previewPanels s !! viewType pn = Some p;
  all_loaded : forall p pn, panels s !! p = Some pn -> html pn <> "";
  timer_own : forall tm,
    updateTimeout s = Some tm ->
    (exists pn, panels s !! timerPanel tm = Some pn
                /\ viewType pn = timerDocument tm)
    /\ is_Some (documents s !! timerDocument tm);
  messages_shape : Forall soleShape (effects s)
}.

(** A case-insensitive [<head>] sits at position [n] of [s]. *)
Definition headAt (s : string) (n : nat) : Prop :=
  exists pre h post,
    s = pre +++ h +++ post /\ String.length pre = n /\ toLowerCase h = "<head>".

(** ** The client script of the host page, lines 224-329 *)

(** A size button of the control bar: its [data-size] attribute and
    whether it carries the class [active]. *)
Record Button : Type := mkButton {
  dataSize : string;
  active : bool
}.

(** The variables of the script and the parts of the page it writes:
    the class list of [#iframe-wrapper], [style.alignItems] of the
    container, the [disabled] flag of the orientation button and the
    [srcdoc] of the frame. *)
Record Client : Type := mkClient {
  currentSize : string;
  isLandscape : bool;
  baseHrefTagString : string;
  sizeButtons : list Button;
  wrapperClasses : list string;
  alignItems : string;
  orientationDisabled : bool;
  srcdoc : string
}.

Inductive ClientEvent : Type :=
  | ReceiveMessage (command : string) (messageHtml : jsval)
  | ClickSize (button : nat)
  | ClickOrientation.

Definition presets : list string := ["mobile"; "tablet"; "laptop"; "desktop"].

(** The page as the template builds it (lines 207-222) and the script
    leaves it after its first run (lines 232-234 and 320-326). *)
Definition initialClient (baseTag initialSrcdoc : string) : Client :=
  mkClient "desktop" false baseTag
           [mkButton "mobile" false; mkButton "tablet" false;
            mkButton "laptop" false; mkButton "desktop" true]
           ["desktop"] "stretch" true initialSrcdoc.

(** [classList.add] and [classList.remove]. *)
Definition classListAdd (token : string) (l : list string) : list string :=
  if existsb (String.eqb token) l then l else l ++ [token].

Definition classListRemove (token : string) (l : list string) : list string :=
  List.filter (fun x => negb (String.eqb x token)) l.

(** Assigning a value to the [srcdoc] property turns it into a string. *)
Definition toDomString (v : jsval) : string :=
  match v with
  | JsString x => x
  | JsUndefined => "undefined"
  | JsNull => "null"
  end.

(** [updateOrientationButtonState], lines 257-261. *)
Definition updateOrientationButtonState (c : Client) : Client :=
  mkClient (currentSize c) (isLandscape c) (baseHrefTagString c)
           (sizeButtons c) (wrapperClasses c) (alignItems c)
           (String.eqb (currentSize c) "desktop") (srcdoc c).

(** The message listener, lines 264-279.  The copy of the injector does
    not throw on the values of [jsval], so the [catch] branch is out of
    reach here. *)
Definition onMessage (command : string) (messageHtml : jsval) (c : Client)
    : Client :=
  if String.eqb command "updateContent" then
    let htmlWithBase :=
      injectBaseHrefIntoString messageHtml (JsString (baseHrefTagString c)) in
    mkClient (currentSize c) (isLandscape c) (baseHrefTagString c)
             (sizeButtons c) (wrapperClasses c) (alignItems c)
             (orientationDisabled c) (toDomString htmlWithBase)
  else c.

(** The click listener of the [button]-th size button, lines 283-303:
    every size button loses the class [active] and the clicked one gets
    it; the class list of the wrapper is cleared and gets the size. *)
Definition onSizeClick (button : nat) (c : Client) : Client :=
  match sizeButtons c !! button with
  | None => c
  | Some b =>
      let size := dataSize b in
      if negb (String.eqb size "") && negb (String.eqb size (currentSize c))
      then
        updateOrientationButtonState
          (mkClient size false (baseHrefTagString c)
                    (imap (fun j x => mkButton (dataSize x) (Nat.eqb j button))
                          (sizeButtons c))
                    (classListAdd size [])
                    (if String.eqb size "desktop" then "stretch"
                     else "flex-start")
                    (orientationDisabled c) (srcdoc c))
      else c
  end.

(** The click listener of the orientation button, lines 307-317. *)
Definition onOrientationClick (c : Client) : Client :=
  if String.eqb (currentSize c) "desktop" then c
  else
    let landscape := negb (isLandscape c) in
    updateOrientationButtonState
      (mkClient (currentSize c) landscape (baseHrefTagString c)
                (sizeButtons c)
                (if landscape
                 then classListAdd "landscape" (wrapperClasses c)
                 else classListRemove "landscape" (wrapperClasses c))
                (alignItems c) (orientationDisabled c) (srcdoc c)).

Definition clientHandle (e : ClientEvent) (c : Client) : Client :=
  match e with
  | ReceiveMessage command messageHtml => onMessage command messageHtml c
  | ClickSize button => onSizeClick button c
  | ClickOrientation => onOrientationClick c
  end.

Definition clientRun (c : Client) (events : list ClientEvent) : Client :=
  fold_left (fun acc e => clientHandle e acc) events c.

(** The page state and the script variables agree. *)
Record clientCoherent (c : Client) : Prop := mkClientCoherent {
  size_is_preset : In (currentSize c) presets;
  buttons_mark_size :
    sizeButtons c
    = map (fun sz => mkButton sz (String.eqb sz (currentSize c))) presets;
  classes_follow_state :
    wrapperClasses c
    = currentSize c :: (if isLandscape c then ["landscape"] else []);
  toggle_follows_size :
    orientationDisabled c = String.eqb (currentSize c) "desktop";
  align_follows_size :
    alignItems c
    = (if String.eqb (currentSize c) "desktop" then "stretch" else "flex-start");
  desktop_is_portrait :
    currentSize c = "desktop" -> isLandscape c = false
}.

(** Sample states: the preview of [pageDoc] is open; the previews of both
    sample documents are open. *)
Definition onePreview : State :=
  step (H := sampleHost) (initialState sampleDocs 0)
       (0, ShowPreviewCommand (Some "file:///proj/page.html")).

Definition twoPreviews : State :=
  step (H := sampleHost) onePreview
       (1, ShowPreviewCommand (Some "file:///proj/other.html")).

(** ** Names for parts of the host model used in later statements *)

Section HostParts.

Context `{Host}.

(** The value [getWebviewHtml] puts into the [srcdoc] attribute of the
    frame (the binding [escapedForInitialSrcdocAttribute], line 140). *)
Definition srcdocAttribute (webview : nat) (rawUserHtml : string)
    (documentUri : Uri) : string :=
  escapeHtmlForAttributeValue
    (injectBaseHref rawUserHtml (getBaseHrefString webview documentUri)).

End HostParts.

(** Every panel object of [s] is still there in [s'], owned by the same
    identity, and disposed if it was. *)
Definition persists (s s' : State) : Prop :=
  forall p pn,
    panels s !! p = Some pn ->
    exists pn', panels s' !! p = Some pn'
                /\ viewType pn' = viewType pn
                /\ (disposed pn = true -> disposed pn' = true).

(** ** Measures used in the statements about the string functions *)

Fixpoint countChar (c : ascii) (s : string) : nat :=
  match s with
  | EmptyString => 0%nat
  | String x r => ((if Ascii.eqb x c then 1 else 0) + countChar c r)%nat
  end.

Fixpoint sumLengths (l : list string) : nat :=
  match l with
  | [] => 0%nat
  | t :: r => (String.length t + sumLengths r)%nat
  end.

(** ** The injector on UTF-16 code units

    The functions of lines 121-134 once more, on lists of 16-bit code
    units, where [toLowerCase] can lengthen a text: U+0130 (capital I with
    dot above) becomes the two units U+0069 U+0307.  The 8-bit functions
    above are these functions on markup whose units are all below 256. *)

Module Utf16.

Fixpoint ofString (s : string) : list N :=
  match s with
  | EmptyString => []
  | String c r => N_of_ascii c :: ofString r
  end.

(** [toLowerCase] on one unit.  Besides [A-Z] and the Latin-1 capitals,
    the Kelvin sign and the Angstrom sign map into the range below 256,
    and U+0130 maps to two units.  Every other cased letter maps to one
    unit that is no unit of the text [<head>]; such letters are kept as
    they are, which changes neither the length of the lower-cased copy nor
    the places where [<head>] occurs in it. *)
Definition lowerUnit (u : N) : list N :=
  if ((65 <=? u) && (u <=? 90))%N
     || ((192 <=? u) && (u <=? 222) && negb (u =? 215))%N
  then [(u + 32)%N]
  else if (u =? 304)%N then [105%N; 775%N]
  else if (u =? 8490)%N then [107%N]
  else if (u =? 8491)%N then [229%N]
  else [u].

Fixpoint toLowerCase (s : list N) : list N :=
  match s with
  | [] => []
  | u :: r => lowerUnit u ++ toLowerCase r
  end.

Fixpoint startsWith (s pat : list N) {struct pat} : bool :=
  match pat, s with
  | [], _ => true
  | _ :: _, [] => false
  | p :: pr, c :: r => N.eqb c p && startsWith r pr
  end.

Fixpoint search (pat s : list N) (k : nat) : option nat :=
  if startsWith s pat then Some k
  else match s with
       | [] => None
       | _ :: r => search pat r (S k)
       end.

Definition indexOf (s pat : list N) (from : Z) : Z :=
  let f := Z.to_nat (Z.min (Z.max from 0) (Z.of_nat (length s))) in
  match search pat (skipn f s) f with
  | Some k => Z.of_nat k
  | None => -1
  end.

Definition slice (s : list N) (b : Z) (e : option Z) : list N :=
  let len := Z.of_nat (length s) in
  let from := relIndex len b in
  let to := match e with Some e => relIndex len e | None => length s end in
  firstn (to - from) (skipn from s).

Fixpoint hasUnit (c : N) (s : list N) : bool :=
  match s with
  | [] => false
  | x :: r => N.eqb x c || hasUnit c r
  end.

(** The [i] flag without the [u] flag, for a unit [p] of an ASCII
    pattern: a small letter also matches its capital, and no unit from 128
    on matches an ASCII unit. *)
Definition foldsTo (p c : N) : bool :=
  N.eqb c p || ((97 <=? p) && (p <=? 122) && N.eqb c (p - 32))%N.

Fixpoint matchesCI (pat s : list N) {struct pat} : bool :=
  match pat, s with
  | [], _ => true
  | _ :: _, [] => false
  | p :: pr, c :: r => foldsTo p c && matchesCI pr r
  end.

Definition gtUnit : N := 62%N.

Definition baseTagStarts (s : list N) : bool :=
  matchesCI (ofString "<base") s && hasUnit gtUnit s.

Fixpoint removeBaseGo (inTag : bool) (s : list N) : list N :=
  match s with
  | [] => []
  | c :: r =>
      if inTag then
        if N.eqb c gtUnit then removeBaseGo false r else removeBaseGo true r
      else if baseTagStarts s then removeBaseGo true r
      else c :: removeBaseGo false r
  end.

Definition removeBaseTags (s : list N) : list N := removeBaseGo false s.

(** [injectBaseHref], lines 121-134. *)
Definition injectBaseHref (rawHtml baseHrefTag : list N) : list N :=
  match baseHrefTag with
  | [] => rawHtml
  | _ :: _ =>
      let cleanHtml := removeBaseTags rawHtml in
      let headTagStart :=
        indexOf (toLowerCase cleanHtml) (ofString "<head>") 0 in
      let fallback := baseHrefTag ++ cleanHtml in
      if negb (headTagStart =? -1) then
        let headTagEndPos := indexOf cleanHtml [gtUnit] headTagStart in
        if negb (headTagEndPos =? -1) then
          slice cleanHtml 0 (Some (headTagEndPos + 1)) ++ baseHrefTag
            ++ slice cleanHtml (headTagEndPos + 1) None
        else fallback
      else fallback
  end.

(** A case-insensitive [<head>] sits at position [n] of [s]. *)
Definition headAt (s : list N) (n : nat) : Prop :=
  exists pre h post,
    s = pre ++ h ++ post /\ length pre = n
    /\ toLowerCase h = ofString "<head>".

Fixpoint countUnit (c : N) (s : list N) : nat :=
  match s with
  | [] => 0%nat
  | x :: r => ((if N.eqb x c then 1 else 0) + countUnit c r)%nat
  end.

(** U+0130, the capital I with dot above. *)
Definition dottedI : N := 304%N.

End Utf16.

(** A markup with six U+0130 in front of its head tag, as in a comment
    in Turkish upper case, and with a base tag of its own; the same markup
    without that tag; and a base tag to inject. *)
Definition dottedMarkup : list N :=
  repeat Utf16.dottedI 6
    ++ Utf16.ofString "<head><base href=old/><title>T</title></head>".

Definition dottedClean : list N :=
  repeat Utf16.dottedI 6 ++ Utf16.ofString "<head><title>T</title></head>".

Definition sampleBaseTag : list N := Utf16.ofString "<base href=u/>".

(** Two previews open; the first document is edited twice, then the second
    document is edited before the 300 ms of the first have passed. *)
Definition overlappingEdits : list (Z * Event) :=
  [(10, DocumentChanged "file:///proj/page.html" "<p>v1</p>");
   (100, DocumentChanged "file:///proj/page.html" "<p>v2</p>");
   (200, DocumentChanged "file:///proj/other.html" "<p>o1</p>");
   (1000, Tick)].



(** ** Facts about strings *)

Section StringFacts.

Lemma sapp_nil_r (s : string) : s +++ "" = s.
Proof. induction s as [|c s IH]; simpl; [done | by rewrite IH]. Qed.

Lemma sapp_assoc (a b c : string) : (a +++ b) +++ c = a +++ b +++ c.
Proof. induction a as [|x a IH]; simpl; [done | by rewrite IH]. Qed.

Lemma slength_app (a b : string) :
  String.length (a +++ b) = (String.length a + String.length b)%nat.
Proof. induction a as [|x a IH]; simpl; [done | by rewrite IH]. Qed.

(** The composed replacements act unit by unit. *)
Lemma escape_unfold (s : string) :
  escapeHtmlForAttributeValue s = escapeEach s.
Proof.
  unfold escapeHtmlForAttributeValue.
  induction s as [|c s IH]; simpl; [done|].
  unfold escapeChar.
  destruct (Ascii.eqb c amp) eqn:Ea.
  - apply Ascii.eqb_eq in Ea as ->. simpl. by rewrite IH.
  - simpl. destruct (Ascii.eqb c dquote) eqn:Eq; simpl; by rewrite IH.
Qed.

Lemma decode_escapeChar (c : ascii) (rest : string) :
  decodeAttrGo 0 (escapeChar c +++ rest) = String c (decodeAttrGo 0 rest).
Proof.
  unfold escapeChar.
  destruct (Ascii.eqb c amp) eqn:Ea.
  { apply Ascii.eqb_eq in Ea as ->. reflexivity. }
  destruct (Ascii.eqb c dquote) eqn:Eq.
  { apply Ascii.eqb_eq in Eq as ->. reflexivity. }
  cbn [String.append chr decodeAttrGo startsWith].
  fold amp. by rewrite Ea.
Qed.

Lemma sapp_cons c (a b : string) : String c a +++ b = String c (a +++ b).
Proof. reflexivity. Qed.

Lemma take_app_length (a b : string) : take (String.length a) (a +++ b) = a.
Proof. induction a as [|x a IH]; simpl; [done | by rewrite IH]. Qed.

Lemma drop_app_length (a b : string) : drop (String.length a) (a +++ b) = b.
Proof. induction a as [|x a IH]; simpl; done. Qed.

Lemma take_drop (n : nat) (s : string) : take n s +++ drop n s = s.
Proof.
  revert s; induction n as [|n IH]; intros [|c s]; simpl; try done.
  by rewrite IH.
Qed.

Lemma length_take (n : nat) (s : string) :
  (n <= String.length s)%nat -> String.length (take n s) = n.
Proof.
  revert s; induction n as [|n IH]; intros [|c s]; simpl; try done; [lia|].
  intros H. rewrite IH; lia.
Qed.

Lemma length_drop (n : nat) (s : string) :
  String.length (drop n s) = (String.length s - n)%nat.
Proof. revert s; induction n as [|n IH]; intros [|c s]; simpl; auto. Qed.

Lemma take_all (n : nat) (s : string) :
  (String.length s <= n)%nat -> take n s = s.
Proof.
  revert s; induction n as [|n IH]; intros [|c s]; simpl; try done; [lia|].
  intros H. rewrite IH; [done | lia].
Qed.

Lemma drop_drop (n m : nat) (s : string) : drop n (drop m s) = drop (m + n) s.
Proof.
  revert s; induction m as [|m IH]; intros s; simpl; [done|].
  destruct s as [|c s]; [by destruct n | apply IH].
Qed.

Lemma length_toLowerCase (s : string) :
  String.length (toLowerCase s) = String.length s.
Proof. induction s as [|c s IH]; simpl; [done | by rewrite IH]. Qed.

Lemma toLowerCase_app (a b : string) :
  toLowerCase (a +++ b) = toLowerCase a +++ toLowerCase b.
Proof. induction a as [|x a IH]; simpl; [done | by rewrite IH]. Qed.

Lemma toLowerCase_take (n : nat) (s : string) :
  toLowerCase (take n s) = take n (toLowerCase s).
Proof.
  revert s; induction n as [|n IH]; intros [|c s]; simpl; try done.
  by rewrite IH.
Qed.

Lemma toLowerCase_drop (n : nat) (s : string) :
  toLowerCase (drop n s) = drop n (toLowerCase s).
Proof. revert s; induction n as [|n IH]; intros [|c s]; simpl; auto. Qed.

Lemma startsWith_app (pat post : string) : startsWith (pat +++ post) pat = true.
Proof.
  induction pat as [|p pat IH]; simpl; [done|].
  by rewrite Ascii.eqb_refl, IH.
Qed.

Lemma startsWith_take (s pat : string) :
  startsWith s pat = true -> take (String.length pat) s = pat.
Proof.
  revert s; induction pat as [|p pat IH]; intros s; simpl; [done|].
  destruct s as [|c s]; [done|].
  intros [Hc Hs]%andb_true_iff. apply Ascii.eqb_eq in Hc as ->.
  by rewrite (IH s Hs).
Qed.

(** [slice] at in-range, non-negative positions. *)
Lemma slice_prefix (s : string) (k : nat) :
  (k <= String.length s)%nat -> slice s 0 (Some (Z.of_nat k)) = take k s.
Proof.
  intros Hk. unfold slice.
  assert (relIndex (Z.of_nat (String.length s)) 0 = 0%nat) as ->.
  { unfold relIndex. simpl. lia. }
  assert (relIndex (Z.of_nat (String.length s)) (Z.of_nat k) = k) as ->.
  { unfold relIndex. destruct (Z.of_nat k <? 0) eqn:E; lia. }
  by rewrite Nat.sub_0_r.
Qed.

Lemma slice_suffix (s : string) (k : nat) :
  (k <= String.length s)%nat -> slice s (Z.of_nat k) None = drop k s.
Proof.
  intros Hk. unfold slice.
  assert (relIndex (Z.of_nat (String.length s)) (Z.of_nat k) = k) as ->.
  { unfold relIndex. destruct (Z.of_nat k <? 0) eqn:E; lia. }
  apply take_all. rewrite length_drop. lia.
Qed.

(** [search] finds the least position at which the pattern starts. *)
Lemma search_first (pat s : string) (k n : nat) :
  (forall j, (j < n)%nat -> startsWith (drop j s) pat = false) ->
  startsWith (drop n s) pat = true ->
  search pat s k = Some (k + n)%nat.
Proof.
  revert s k; induction n as [|n IH]; intros s k Hlt Hn.
  - simpl in Hn. destruct s; simpl; rewrite Hn; f_equal; lia.
  - pose proof (Hlt 0%nat ltac:(lia)) as H0. simpl in H0.
    destruct s as [|c s].
    + simpl in Hn. congruence.
    + simpl. simpl in H0. rewrite H0.
      rewrite (IH s (S k)); [f_equal; lia | | exact Hn].
      intros j Hj. apply (Hlt (S j)). lia.
Qed.

Lemma search_none (pat s : string) (k : nat) :
  (forall j, startsWith (drop j s) pat = false) -> search pat s k = None.
Proof.
  revert k; induction s as [|c s IH]; intros k H.
  - pose proof (H 0%nat) as H0. simpl in *. by rewrite H0.
  - simpl. pose proof (H 0%nat) as H0. simpl in H0. rewrite H0.
    apply IH. intros j. apply (H (S j)).
Qed.

Lemma search_Some_inv (pat s : string) (k r : nat) :
  search pat s k = Some r ->
  exists n, r = (k + n)%nat /\ (n <= String.length s)%nat
    /\ startsWith (drop n s) pat = true
    /\ forall j, (j < n)%nat -> startsWith (drop j s) pat = false.
Proof.
  revert k; induction s as [|c s IH]; intros k; simpl.
  - destruct (startsWith "" pat) eqn:E; [|done].
    intros [= <-]. exists 0%nat. repeat split; [lia | done | done | lia].
  - destruct (startsWith (String c s) pat) eqn:E.
    + intros [= <-]. exists 0%nat. repeat split; [lia | lia | done | lia].
    + intros (n & -> & Hn & Hs & Hlt)%IH. exists (S n).
      repeat split; [lia | lia | done |].
      intros [|j] Hj; [done|]. apply Hlt. lia.
Qed.

Lemma search_None_inv (pat s : string) (k : nat) :
  search pat s k = None -> forall j, startsWith (drop j s) pat = false.
Proof.
  revert k; induction s as [|c s IH]; intros k; simpl.
  - destruct (startsWith "" pat) eqn:E; [done|]. by intros _ [|j].
  - destruct (startsWith (String c s) pat) eqn:E; [done|].
    intros H [|j]; [done|]. simpl. by apply (IH (S k)).
Qed.

End StringFacts.

(** ** The base-path injector *)

Section InjectFacts.

Lemma startsWith_length (s pat : string) :
  startsWith s pat = true -> (String.length pat <= String.length s)%nat.
Proof.
  revert s; induction pat as [|p pat IH]; intros s; simpl; [lia|].
  destruct s as [|c s]; [done|].
  intros [_ Hs]%andb_true_iff. apply IH in Hs. simpl. lia.
Qed.

Lemma headAt_iff (s : string) (n : nat) :
  headAt s n <-> startsWith (drop n (toLowerCase s)) "<head>" = true.
Proof.
  split.
  - intros (pre & h & post & -> & <- & Hh).
    rewrite !toLowerCase_app, Hh, <- (length_toLowerCase pre).
    rewrite drop_app_length. apply startsWith_app.
  - intros H. pose proof (startsWith_length _ _ H) as Hlen.
    rewrite length_drop, length_toLowerCase in Hlen. simpl in Hlen.
    exists (take n s), (take 6 (drop n s)), (drop 6 (drop n s)).
    split; [by rewrite !take_drop|].
    split; [apply length_take; lia|].
    rewrite toLowerCase_take, toLowerCase_drop.
    by apply startsWith_take in H.
Qed.

Lemma lowerChar_gt (c : ascii) : lowerChar c = gt -> c = gt.
Proof. destruct c as [[] [] [] [] [] [] [] []]; vm_compute; congruence. Qed.

Lemma lowerChar_not_gt (c x : ascii) :
  lowerChar c = x -> x <> gt -> Ascii.eqb c gt = false.
Proof.
  intros Hc Hx. apply Ascii.eqb_neq. intros ->. by apply Hx.
Qed.

(** The first [>] at or after a [<head>] is the one that closes it. *)
Lemma search_gt_head (h post : string) (k : nat) :
  toLowerCase h = "<head>" -> search ">" (h +++ post) k = Some (k + 5)%nat.
Proof.
  intros Hh.
  destruct h as [|c0 [|c1 [|c2 [|c3 [|c4 [|c5 [|c6 h]]]]]]]; try done.
  simpl in Hh. injection Hh as H0 H1 H2 H3 H4 H5.
  apply lowerChar_gt in H5 as ->.
  apply lowerChar_not_gt in H0, H1, H2, H3, H4; try done.
  apply (search_first ">" _ k 5).
  - intros j Hj. fold gt.
    do 5 (destruct j as [|j]; [simpl; by rewrite ?H0, ?H1, ?H2, ?H3, ?H4|]).
    lia.
  - simpl. by destruct post.
Qed.

Lemma indexOf_from_start (s pat : string) :
  indexOf s pat 0
  = match search pat s 0 with Some k => Z.of_nat k | None => -1 end.
Proof.
  unfold indexOf.
  assert (Z.to_nat (Z.min (Z.max 0 0) (Z.of_nat (String.length s))) = 0%nat)
    as -> by lia.
  done.
Qed.

Lemma indexOf_from (s pat : string) (n : nat) :
  (n <= String.length s)%nat ->
  indexOf s pat (Z.of_nat n)
  = match search pat (drop n s) n with Some k => Z.of_nat k | None => -1 end.
Proof.
  intros Hn. unfold indexOf.
  assert (Z.to_nat (Z.min (Z.max (Z.of_nat n) 0)
                          (Z.of_nat (String.length s))) = n) as -> by lia.
  done.
Qed.

Lemma tag_nonempty (tag : string) : tag <> "" -> String.eqb tag "" = false.
Proof. intros H. by apply String.eqb_neq. Qed.

(** The injector when the cleaned markup has a first [<head>]. *)
Lemma inject_head (rawHtml tag pre h post : string) :
  tag <> "" ->
  removeBaseTags rawHtml = pre +++ h +++ post ->
  toLowerCase h = "<head>" ->
  (forall m, headAt (removeBaseTags rawHtml) m -> (String.length pre <= m)%nat) ->
  injectBaseHref rawHtml tag = pre +++ h +++ tag +++ post.
Proof.
  intros Htag Hclean Hh Hmin. unfold injectBaseHref.
  rewrite (tag_nonempty _ Htag).
  set (clean := removeBaseTags rawHtml) in *.
  set (n := String.length pre).
  assert (Hat : headAt clean n) by (by exists pre, h, post).
  assert (Hlen : String.length clean = (n + 6 + String.length post)%nat).
  { rewrite Hclean, !slength_app. fold n.
    rewrite <- (length_toLowerCase h), Hh. simpl. lia. }
  assert (Hs : search "<head>" (toLowerCase clean) 0 = Some (0 + n)%nat).
  { apply search_first; [|by apply headAt_iff].
    intros j Hj. destruct (startsWith _ _) eqn:E; [|done].
    apply headAt_iff, Hmin in E. unfold n in Hj. lia. }
  rewrite indexOf_from_start, Hs. simpl (0 + n)%nat.
  assert ((Z.of_nat n =? -1) = false) as -> by (apply Z.eqb_neq; lia). simpl negb. cbv iota.
  assert (Hn : (n <= String.length clean)%nat) by lia.
  rewrite (indexOf_from clean ">" n Hn).
  assert (drop n clean = h +++ post) as ->.
  { rewrite Hclean. apply drop_app_length. }
  rewrite (search_gt_head _ _ _ Hh).
  assert ((Z.of_nat (n + 5) =? -1) = false) as ->
    by (apply Z.eqb_neq; lia). simpl negb. cbv iota.
  replace (Z.of_nat (n + 5) + 1) with (Z.of_nat (n + 6)) by lia.
  rewrite slice_prefix, slice_suffix by lia.
  assert (Hph : String.length (pre +++ h) = (n + 6)%nat).
  { rewrite slength_app. fold n.
    rewrite <- (length_toLowerCase h), Hh. simpl. lia. }
  rewrite <- Hph, Hclean, <- (sapp_assoc pre h post).
  rewrite take_app_length, drop_app_length.
  by rewrite !sapp_assoc.
Qed.

(** The injector when the cleaned markup has no [<head>]. *)
Lemma inject_no_head (rawHtml tag : string) :
  tag <> "" ->
  (forall m, ~ headAt (removeBaseTags rawHtml) m) ->
  injectBaseHref rawHtml tag = tag +++ removeBaseTags rawHtml.
Proof.
  intros Htag Hno. unfold injectBaseHref.
  rewrite (tag_nonempty _ Htag), indexOf_from_start.
  rewrite search_none; [done|].
  intros j. destruct (startsWith _ _) eqn:E; [|done].
  by apply headAt_iff, Hno in E.
Qed.

(** Either there is a first [<head>] or there is none. *)
Lemma head_first_or_none (s : string) :
  (exists n, headAt s n /\ forall m, headAt s m -> (n <= m)%nat)
  \/ (forall m, ~ headAt s m).
Proof.
  destruct (search "<head>" (toLowerCase s) 0) as [r|] eqn:E.
  - apply search_Some_inv in E as (n & -> & _ & Hn & Hlt).
    left. exists n. split; [by apply headAt_iff|].
    intros m Hm%headAt_iff.
    destruct (decide (n <= m)%nat) as [|Hnm]; [done|].
    rewrite Hlt in Hm by lia. done.
  - right. intros m Hm%headAt_iff.
    by rewrite (search_None_inv _ _ _ E m) in Hm.
Qed.

End InjectFacts.

(** ** The removal pass and the matches it deletes *)

Section BaseTagFacts.

Lemma hasChar_app (c : ascii) (a b : string) :
  hasChar c (a +++ b) = hasChar c a || hasChar c b.
Proof.
  induction a as [|x a IH]; simpl; [done|].
  by rewrite IH, orb_assoc.
Qed.

Lemma matchesCI_app (pat s post : string) :
  matchesCI pat s = true -> matchesCI pat (s +++ post) = true.
Proof.
  revert s; induction pat as [|p pat IH]; intros s; simpl; [done|].
  destruct s as [|c s]; [done|]. simpl.
  intros [-> Hs]%andb_true_iff. by rewrite (IH s Hs).
Qed.

(** A literal without [>] that matches across [x +++ y], where [x]
    holds a [>], lies inside [x]. *)
Lemma matchesCI_within (pat x y z : string) :
  hasChar gt pat = false ->
  matchesCI pat (x +++ y) = true ->
  hasChar gt x = true ->
  matchesCI pat (x +++ z) = true.
Proof.
  revert x; induction pat as [|p pat IH]; intros x Hp; simpl; [done|].
  simpl in Hp. apply orb_false_iff in Hp as [Hp1 Hp2].
  destruct x as [|c x]; [done|]. simpl.
  intros [Hc Hm]%andb_true_iff Hx. rewrite Hc. simpl.
  apply Ascii.eqb_eq in Hc.
  rewrite (lowerChar_not_gt c p Hc) in Hx.
  - by apply IH.
  - intros ->. by rewrite Ascii.eqb_refl in Hp1.
Qed.

Lemma baseTagStarts_app (s post : string) :
  baseTagStarts s = true -> baseTagStarts (s +++ post) = true.
Proof.
  unfold baseTagStarts. intros [Hm Hg]%andb_true_iff.
  by rewrite (matchesCI_app _ _ _ Hm), hasChar_app, Hg.
Qed.

(** A match that starts in a part holding a [>] does not depend on what
    follows that part. *)
Lemma baseTagStarts_within (x y z : string) :
  hasChar gt x = true ->
  baseTagStarts (x +++ y) = true -> baseTagStarts (x +++ z) = true.
Proof.
  unfold baseTagStarts. intros Hx [Hm _]%andb_true_iff.
  rewrite (matchesCI_within "<base" x y z); [|done..].
  by rewrite hasChar_app, Hx.
Qed.

Lemma baseTagStarts_head (c : ascii) (r : string) :
  baseTagStarts (String c r) = true ->
  Ascii.eqb c gt = false /\ hasChar gt r = true.
Proof.
  unfold baseTagStarts. simpl.
  intros [[Hc _]%andb_true_iff Hg]%andb_true_iff.
  apply Ascii.eqb_eq in Hc.
  assert (Ascii.eqb c gt = false) as E by (by apply (lowerChar_not_gt c "<")).
  by rewrite E in Hg.
Qed.

(** *** The list of matches *)

Lemma baseTagsGo_open (acc r : string) :
  hasChar gt r = true -> baseTagsGo (Some acc) r <> [].
Proof.
  revert acc; induction r as [|c r IH]; intros acc; simpl; [done|].
  destruct (Ascii.eqb c gt); simpl; [done | apply IH].
Qed.

Lemma baseTags_nil_inv (s : string) :
  baseTagsGo None s = [] -> forall j, baseTagStarts (drop j s) = false.
Proof.
  induction s as [|c s IH]; intros H j.
  - by destruct j.
  - simpl in H. destruct (baseTagStarts (String c s)) eqn:E.
    + apply baseTagStarts_head in E as [_ Hg].
      by apply baseTagsGo_open in H.
    + destruct j as [|j]; [done | by apply IH].
Qed.

Lemma baseTags_nil (s : string) :
  (forall j, baseTagStarts (drop j s) = false) -> baseTagsGo None s = [].
Proof.
  induction s as [|c s IH]; intros H; [done|].
  simpl. pose proof (H 0%nat) as H0. simpl in H0. rewrite H0.
  apply IH. intros j. apply (H (S j)).
Qed.

(** Scanning over a prefix in which no match starts. *)
Lemma baseTagsGo_skip (a rest : string) :
  (forall j, (j < String.length a)%nat ->
             baseTagStarts (drop j (a +++ rest)) = false) ->
  baseTagsGo None (a +++ rest) = baseTagsGo None rest.
Proof.
  induction a as [|c a IH]; intros H; [done|].
  rewrite sapp_cons. simpl.
  pose proof (H 0%nat ltac:(simpl; lia)) as H0. simpl in H0. rewrite H0.
  apply IH. intros j Hj. apply (H (S j)). simpl. lia.
Qed.

Lemma baseTagsGo_close (acc r rest : string) :
  firstGtIsLast r = true ->
  baseTagsGo (Some acc) (r +++ rest) = (acc +++ r) :: baseTagsGo None rest.
Proof.
  revert acc; induction r as [|c r IH]; intros acc; simpl; [done|].
  destruct (Ascii.eqb c gt) eqn:E.
  - intros ->%String.eqb_eq. done.
  - intros Hr. rewrite (IH _ Hr). by rewrite sapp_assoc.
Qed.

Lemma firstGtIsLast_hasChar (s : string) :
  firstGtIsLast s = true -> hasChar gt s = true.
Proof.
  induction s as [|c s IH]; simpl; [done|].
  destruct (Ascii.eqb c gt); [done | apply IH].
Qed.

(** A whole base tag in front of any text is found as the first match. *)
Lemma baseTags_tag (tag rest : string) :
  isBaseTag tag = true ->
  baseTagsGo None (tag +++ rest) = tag :: baseTagsGo None rest.
Proof.
  unfold isBaseTag. intros [Hm Hl]%andb_true_iff.
  destruct tag as [|c r]; [done|].
  assert (Hs : baseTagStarts (String c r) = true).
  { unfold baseTagStarts. by rewrite Hm, (firstGtIsLast_hasChar _ Hl). }
  pose proof (baseTagStarts_head _ _ Hs) as [Hc _].
  rewrite sapp_cons. simpl baseTagsGo.
  assert (baseTagStarts (String c (r +++ rest)) = true) as ->.
  { rewrite <- sapp_cons. by apply baseTagStarts_app. }
  simpl in Hl. rewrite Hc in Hl.
  by rewrite (baseTagsGo_close _ _ _ Hl).
Qed.

(** Inserting a whole base tag at a cut of a text without matches, where
    everything before the cut is followed by a [>] before the cut. *)
Lemma baseTags_insert (a b tag : string) :
  isBaseTag tag = true ->
  baseTags (a +++ b) = [] ->
  (forall j, (j < String.length a)%nat -> hasChar gt (drop j a) = true) ->
  baseTags (a +++ tag +++ b) = [tag].
Proof.
  intros Htag Hnil Ha. unfold baseTags in *.
  pose proof (baseTags_nil_inv _ Hnil) as Hno.
  assert (Hdrop : forall j (x y : string), (j <= String.length x)%nat ->
            drop j (x +++ y) = drop j x +++ y).
  { intros j x; revert j; induction x as [|c x IH]; intros [|j] y Hj;
      simpl in *; try done; [lia|]. apply IH. lia. }
  rewrite baseTagsGo_skip.
  - rewrite (baseTags_tag _ _ Htag). f_equal.
    apply baseTags_nil. intros j.
    specialize (Hno (String.length a + j)%nat).
    by rewrite <- drop_drop, drop_app_length in Hno.
  - intros j Hj. rewrite Hdrop by lia.
    destruct (baseTagStarts (drop j a +++ tag +++ b)) eqn:E; [|done].
    apply (baseTagStarts_within _ _ b) in E; [|by apply Ha].
    rewrite <- Hdrop in E by lia. by rewrite Hno in E.
Qed.

Lemma hasChar_snoc (x : string) : hasChar gt (x +++ ">") = true.
Proof.
  induction x as [|c x IH]; simpl; [done|]. rewrite IH. apply orb_true_r.
Qed.

Lemma hasChar_drop_last (x : string) (j : nat) :
  (j < String.length (x +++ ">"))%nat ->
  hasChar gt (drop j (x +++ ">")) = true.
Proof.
  revert j; induction x as [|c x IH]; intros j Hj.
  - destruct j; [done | simpl in Hj; lia].
  - destruct j as [|j].
    + apply (hasChar_snoc (String c x)).
    + simpl. apply IH. simpl in Hj. lia.
Qed.

Lemma head_ends_gt (h : string) :
  toLowerCase h = "<head>" -> exists x, h = x +++ ">".
Proof.
  intros Hh.
  destruct h as [|c0 [|c1 [|c2 [|c3 [|c4 [|c5 [|c6 h]]]]]]]; try done.
  simpl in Hh. injection Hh as _ _ _ _ _ H5.
  apply lowerChar_gt in H5 as ->.
  by exists (String c0 (String c1 (String c2 (String c3 (String c4 ""))))).
Qed.

(** *** The removal pass *)






End BaseTagFacts.

(** ** The event handlers *)

Section HostFacts.

Context `{Host}.

Lemma page_nonempty (w : nat) (raw : string) (u : Uri) (seed : nat) :
  getWebviewHtml w raw u seed <> "".
Proof. unfold getWebviewHtml. done. Qed.

(** The two outcomes of an update request. *)
Lemma update_cases (p : nat) (d : TextDocument) (force : bool) (s : State)
    (pn : WebviewPanel) :
  panels s !! p = Some pn ->
  updateWebviewContent p d force s
  = if force || String.eqb (html pn) ""
    then
      let page := getWebviewHtml p (getText d) (uri d) (draws s) in
      emit (SetHtml p page)
        (setDraws (draws s + 32)
           (setPanels (<[p := withHtml page pn]> (panels s)) s))
    else emit (PostMessage p (updateContent (getText d))) s.
Proof. intros Hp. unfold updateWebviewContent. by rewrite Hp. Qed.

Lemma update_loaded (p : nat) (d : TextDocument) (s : State)
    (pn : WebviewPanel) :
  panels s !! p = Some pn -> html pn <> "" ->
  updateWebviewContent p d false s
  = emit (PostMessage p (updateContent (getText d))) s.
Proof.
  intros Hp Hh. rewrite (update_cases _ _ _ _ _ Hp). simpl.
  by apply String.eqb_neq in Hh as ->.
Qed.

Lemma consistent_emit (e : Effect) (s : State) :
  soleShape e -> consistent s -> consistent (emit e s).
Proof.
  intros He [H1 H2 H3 H4 H5]. split; simpl; try done.
  apply Forall_app. split; [done | by constructor].
Qed.

Lemma consistent_setDraws (n : nat) (s : State) :
  consistent s -> consistent (setDraws n s).
Proof. by intros [H1 H2 H3 H4 H5]. Qed.

Lemma consistent_setClock (t : Z) (s : State) :
  consistent s -> consistent (setClock t s).
Proof. by intros [H1 H2 H3 H4 H5]. Qed.

Lemma consistent_clear_timer (s : State) :
  consistent s -> consistent (setTimer None s).
Proof. by intros [H1 H2 H3 H4 H5]. Qed.

(** Replacing a panel object by one with the same owner and life state. *)
Lemma consistent_replace (p : nat) (pn pn' : WebviewPanel) (s : State) :
  panels s !! p = Some pn ->
  viewType pn' = viewType pn -> disposed pn' = disposed pn ->
  html pn' <> "" ->
  consistent s ->
  consistent (setPanels (<[p := pn']> (panels s)) s).
Proof.
  intros Hp Hv Hd Hh [H1 H2 H3 H4 H5]. split; simpl; try done.
  - intros k q Hq. destruct (H1 k q Hq) as (qn & Hqn & Hk & Hl).
    destruct (decide (p = q)) as [->|Hne].
    + exists pn'. rewrite lookup_insert_eq. simplify_eq. by rewrite Hv, Hd.
    + exists qn. by rewrite lookup_insert_ne.
  - intros q qn Hq Hl. destruct (decide (p = q)) as [->|Hne].
    + rewrite lookup_insert_eq in Hq. simplify_eq.
      rewrite Hv. apply H2; [done | by rewrite <- Hd].
    + rewrite lookup_insert_ne in Hq by done. by apply H2.
  - intros q qn Hq. destruct (decide (p = q)) as [->|Hne].
    + rewrite lookup_insert_eq in Hq. by simplify_eq.
    + rewrite lookup_insert_ne in Hq by done. by eapply H3.
  - intros tm Htm. destruct (H4 tm Htm) as [(qn & Hqn & Hk) Hdoc].
    split; [|done]. destruct (decide (p = timerPanel tm)) as [->|Hne].
    + exists pn'. rewrite lookup_insert_eq. simplify_eq. by rewrite Hv.
    + exists qn. by rewrite lookup_insert_ne.
Qed.

Lemma consistent_update (p : nat) (d : TextDocument) (force : bool)
    (s : State) :
  consistent s -> consistent (updateWebviewContent p d force s).
Proof.
  intros Hs. unfold updateWebviewContent.
  destruct (panels s !! p) as [pn|] eqn:Hp; [|done].
  destruct (force || String.eqb (html pn) "").
  - apply consistent_emit; [done|]. apply consistent_setDraws.
    apply (consistent_replace p pn); done || apply page_nonempty.
  - by apply consistent_emit.
Qed.

Lemma consistent_dispose (p : nat) (s : State) :
  consistent s -> consistent (disposePanel p s).
Proof.
  intros Hs. unfold disposePanel.
  destruct (panels s !! p) as [pn|] eqn:Hp; [|done].
  destruct (disposed pn) eqn:Hd; [done|].
  apply consistent_emit; [done|].
  destruct Hs as [H1 H2 H3 H4 H5]. split; simpl; try done.
  - intros k q Hq.
    destruct (decide (viewType pn = k)) as [<-|Hk].
    { by rewrite lookup_delete_eq in Hq. }
    rewrite lookup_delete_ne in Hq by done.
    destruct (H1 k q Hq) as (qn & Hqn & Hvk & Hl).
    exists qn. rewrite lookup_insert_ne; [done|].
    intros <-. by simplify_eq.
  - intros q qn Hq Hl. destruct (decide (p = q)) as [->|Hne].
    { rewrite lookup_insert_eq in Hq. by simplify_eq. }
    rewrite lookup_insert_ne in Hq by done.
    pose proof (H2 q qn Hq Hl) as Hr.
    rewrite lookup_delete_ne; [done|].
    intros Heq. rewrite <- Heq, (H2 p pn Hp Hd) in Hr. by simplify_eq.
  - intros q qn Hq. destruct (decide (p = q)) as [->|Hne].
    + rewrite lookup_insert_eq in Hq. simplify_eq. simpl. by eapply H3.
    + rewrite lookup_insert_ne in Hq by done. by eapply H3.
  - intros tm Htm. destruct (H4 tm Htm) as [(qn & Hqn & Hk) Hdoc].
    split; [|done]. destruct (decide (p = timerPanel tm)) as [->|Hne].
    + exists (withDisposed pn). rewrite lookup_insert_eq. by simplify_eq.
    + exists qn. by rewrite lookup_insert_ne.
Qed.

Lemma consistent_setDocuments (d : gmap string TextDocument) (s : State) :
  (forall k, is_Some (documents s !! k) -> is_Some (d !! k)) ->
  consistent s -> consistent (setDocuments d s).
Proof.
  intros Hd [H1 H2 H3 H4 H5]. split; simpl; try done.
  intros tm Htm. destruct (H4 tm Htm) as [Hp Hdoc]. split; [done|].
  by apply Hd.
Qed.

Lemma is_Some_insert_keep {A} (m : gmap string A) (k : string) (x : A) :
  forall j, is_Some (m !! j) -> is_Some (<[k := x]> m !! j).
Proof.
  intros j Hj. destruct (decide (k = j)) as [->|Hne].
  - rewrite lookup_insert_eq. by eexists.
  - by rewrite lookup_insert_ne.
Qed.

Lemma fresh_panel (s : State) : panels s !! fresh (dom (panels s)) = None.
Proof. apply not_elem_of_dom. apply is_fresh. Qed.

Lemma showPreview_creates (k : string) (doc : TextDocument) (s : State) :
  documents s !! k = Some doc -> languageId doc = "html" ->
  previewPanels s !! k = None ->
  showPreview (Some k) s = created k doc s.
Proof.
  intros Hdoc Hlang Hreg. unfold showPreview, created.
  rewrite Hdoc, Hlang, Hreg. simpl.
  unfold updateWebviewContent. simpl. rewrite lookup_insert_eq. simpl.
  unfold emit, setDraws, setPanels, setRegistry, withHtml. simpl.
  by rewrite insert_insert_eq, <- app_assoc.
Qed.

Lemma consistent_created (k : string) (doc : TextDocument) (s : State) :
  previewPanels s !! k = None ->
  consistent s -> consistent (created k doc s).
Proof.
  intros Hreg [H1 H2 H3 H4 H5]. pose proof (fresh_panel s) as Hfresh.
  set (p := fresh (dom (panels s))) in *.
  split; unfold created; fold p; simpl.
  - intros k' q Hq. destruct (decide (k = k')) as [<-|Hk].
    + rewrite lookup_insert_eq in Hq. simplify_eq.
      eexists. rewrite lookup_insert_eq. done.
    + rewrite lookup_insert_ne in Hq by done.
      destruct (H1 k' q Hq) as (qn & Hqn & Hv & Hl).
      exists qn. rewrite lookup_insert_ne; [done|]. intros <-. congruence.
  - intros q qn Hq Hl. destruct (decide (p = q)) as [<-|Hne].
    + rewrite lookup_insert_eq in Hq. simplify_eq. simpl.
      by rewrite lookup_insert_eq.
    + rewrite lookup_insert_ne in Hq by done.
      pose proof (H2 q qn Hq Hl) as Hr.
      rewrite lookup_insert_ne; [done|]. intros Heq.
      rewrite <- Heq in Hr. congruence.
  - intros q qn Hq. destruct (decide (p = q)) as [<-|Hne].
    + rewrite lookup_insert_eq in Hq. simplify_eq. simpl.
      apply page_nonempty.
    + rewrite lookup_insert_ne in Hq by done. by eapply H3.
  - intros tm Htm. destruct (H4 tm Htm) as [(qn & Hqn & Hv) Hdoc].
    split; [|done]. exists qn. rewrite lookup_insert_ne; [done|].
    intros Heq. rewrite <- Heq in Hqn. congruence.
  - apply Forall_app. split; [done|]. by repeat constructor.
Qed.

Lemma consistent_showPreview (editor : option string) (s : State) :
  consistent s -> consistent (showPreview editor s).
Proof.
  intros Hs. destruct editor as [k|]; [|by apply consistent_emit].
  unfold showPreview.
  destruct (documents s !! k) as [doc|] eqn:Hdoc; [|done].
  destruct (String.eqb (languageId doc) "html") eqn:Hlang; simpl;
    [|by apply consistent_emit].
  destruct (previewPanels s !! k) as [p|] eqn:Hreg.
  - apply consistent_update. by apply consistent_emit.
  - apply String.eqb_eq in Hlang.
    pose proof (showPreview_creates k doc s Hdoc Hlang Hreg) as Heq.
    unfold showPreview in Heq. rewrite Hdoc, Hlang, Hreg in Heq. simpl in Heq.
    rewrite Heq. by apply consistent_created.
Qed.

Lemma consistent_viewState (p : nat) (v : bool) (s : State) :
  consistent s -> consistent (viewStateChanged p v s).
Proof.
  intros Hs. unfold viewStateChanged.
  destruct (panels s !! p) as [pn|] eqn:Hp; [|done].
  destruct (disposed pn) eqn:Hd; [done|].
  assert (Hs1 : consistent
                  (setPanels (<[p := withVisible v pn]> (panels s)) s)).
  { apply (consistent_replace p pn); try done. simpl.
    by apply (all_loaded s Hs p). }
  destruct v; [|done].
  destruct (documents s !! viewType pn) as [doc|]; [|done].
  destruct (isClosed doc); [done|]. by apply consistent_update.
Qed.

Lemma consistent_documentChanged (k text : string) (s : State) :
  consistent s -> consistent (documentChanged k text s).
Proof.
  intros Hs. unfold documentChanged.
  destruct (documents s !! k) as [doc|] eqn:Hdoc; [|done].
  assert (Hs1 : consistent
            (setDocuments (<[k := withText text doc]> (documents s)) s)).
  { apply consistent_setDocuments; [apply is_Some_insert_keep | done]. }
  simpl. destruct (previewPanels s !! k) as [p|] eqn:Hreg; [|done].
  destruct (String.eqb (languageId doc) "html"); [|done].
  destruct Hs1 as [H1 H2 H3 H4 H5]. split; simpl; try done.
  intros tm [= <-]. simpl. split.
  - destruct (H1 k p Hreg) as (pn & Hpn & Hv & _). by exists pn.
  - rewrite lookup_insert_eq. by eexists.
Qed.

Lemma consistent_documentClosed (k : string) (s : State) :
  consistent s -> consistent (documentClosed k s).
Proof.
  intros Hs. unfold documentClosed.
  destruct (documents s !! k) as [doc|] eqn:Hdoc; [|done].
  assert (Hs1 : consistent
            (setDocuments (<[k := withClosed doc]> (documents s)) s)).
  { apply consistent_setDocuments; [apply is_Some_insert_keep | done]. }
  simpl. destruct (previewPanels s !! k) as [p|]; [|done].
  by apply consistent_dispose.
Qed.

Lemma dispose_registered (p : nat) (s : State) (k : string) :
  consistent s -> previewPanels s !! k = Some p ->
  previewPanels (disposePanel p s) = delete k (previewPanels s).
Proof.
  intros Hs Hreg.
  destruct (registered_live s Hs k p Hreg) as (pn & Hpn & Hv & Hl).
  unfold disposePanel. rewrite Hpn, Hl. simpl. by rewrite Hv.
Qed.

Lemma consistent_deactivate (s : State) :
  consistent s -> consistent (deactivate s).
Proof.
  intros Hs. unfold deactivate. simpl.
  set (s1 := setTimer None s).
  assert (Hs1 : consistent s1) by (by apply consistent_clear_timer).
  assert (Hfold :
    previewPanels s ⊆ previewPanels s1 ->
    consistent (map_fold (fun _ panel acc => disposePanel panel acc) s1
                         (previewPanels s))
    /\ forall k,
        previewPanels (map_fold (fun _ panel acc => disposePanel panel acc) s1
                                (previewPanels s)) !! k
        = match previewPanels s !! k with
          | Some _ => None
          | None => previewPanels s1 !! k
          end).
  { apply (map_fold_weak_ind
             (fun r m => m ⊆ previewPanels s1 ->
                consistent r /\ forall k, previewPanels r !! k
                  = match m !! k with
                    | Some _ => None
                    | None => previewPanels s1 !! k
                    end)).
    - intros _. split; [done|]. intros k. by rewrite lookup_empty.
    - intros i x m r Hi IH Hsub.
      assert (Hm : m ⊆ previewPanels s1).
      { etrans; [|exact Hsub]. by apply insert_subseteq. }
      destruct (IH Hm) as [Hr Hreg].
      assert (Hix : previewPanels r !! i = Some x).
      { rewrite Hreg, Hi.
        eapply lookup_weaken; [|exact Hsub]. apply lookup_insert_eq. }
      split; [by apply consistent_dispose|].
      intros k. rewrite (dispose_registered x r i Hr Hix).
      destruct (decide (i = k)) as [->|Hne].
      + by rewrite lookup_delete_eq, lookup_insert_eq.
      + by rewrite lookup_delete_ne, lookup_insert_ne, Hreg. }
  destruct (Hfold ltac:(done)) as [[H1 H2 H3 H4 H5] Hreg].
  split; simpl; try done.
  intros p pn Hp Hl. pose proof (H2 p pn Hp Hl) as Hr.
  rewrite Hreg in Hr. simpl in Hr.
  destruct (previewPanels s !! viewType pn); congruence.
Qed.

Lemma consistent_advance (t : Z) (s : State) :
  consistent s -> consistent (advance t s).
Proof.
  intros Hs. unfold advance. apply consistent_setClock.
  destruct (updateTimeout s) as [tm|]; [|done].
  destruct (deadline tm <=? t); [|done].
  destruct (documents s !! timerDocument tm); [|by apply consistent_clear_timer].
  apply consistent_update. by apply consistent_clear_timer.
Qed.

Lemma consistent_handle (e : Event) (s : State) :
  consistent s -> consistent (handle e s).
Proof.
  intros Hs. destruct e as [ed|k d|k t|k|p|p v| |]; simpl.
  - by apply consistent_showPreview.
  - destruct (documents s !! k) as [old|] eqn:Hk.
    + destruct (isClosed old); [|done].
      apply consistent_setDocuments; [apply is_Some_insert_keep | done].
    + apply consistent_setDocuments; [apply is_Some_insert_keep | done].
  - by apply consistent_documentChanged.
  - by apply consistent_documentClosed.
  - by apply consistent_dispose.
  - by apply consistent_viewState.
  - done.
  - by apply consistent_deactivate.
Qed.

Lemma reachable_consistent (s : State) : reachable s -> consistent s.
Proof.
  induction 1 as [docs t0|s te _ IH].
  - split; simpl; try done.
  - unfold step. by apply consistent_handle, consistent_advance.
Qed.

(** *** The timer *)

Lemma update_false_keeps (q : nat) (d : TextDocument) (s : State)
    (p : nat) (pn : WebviewPanel) :
  panels s !! p = Some pn -> html pn <> "" ->
  panels (updateWebviewContent q d false s) !! p = Some pn.
Proof.
  intros Hp Hh. unfold updateWebviewContent.
  destruct (panels s !! q) as [qn|] eqn:Hq; [|done]. simpl.
  destruct (String.eqb (html qn) "") eqn:E; simpl; [|done].
  rewrite lookup_insert_ne; [done|].
  intros ->. apply String.eqb_eq in E. congruence.
Qed.

Lemma update_frame (q : nat) (d : TextDocument) (f : bool) (s : State) :
  previewPanels (updateWebviewContent q d f s) = previewPanels s
  /\ documents (updateWebviewContent q d f s) = documents s
  /\ updateTimeout (updateWebviewContent q d f s) = updateTimeout s
  /\ clock (updateWebviewContent q d f s) = clock s.
Proof.
  unfold updateWebviewContent. destruct (panels s !! q) as [qn|]; [|done].
  by destruct (f || String.eqb (html qn) "").
Qed.

Lemma advance_frame (t : Z) (s : State) :
  previewPanels (advance t s) = previewPanels s
  /\ documents (advance t s) = documents s
  /\ clock (advance t s) = Z.max (clock s) t.
Proof.
  unfold advance. simpl.
  destruct (updateTimeout s) as [tm|]; [|done].
  destruct (deadline tm <=? t); [|done].
  destruct (documents s !! timerDocument tm) as [d|]; [|done].
  destruct (update_frame (timerPanel tm) d false (setTimer None s))
    as (-> & -> & _ & _). done.
Qed.

Lemma advance_keeps (t : Z) (s : State) (p : nat) (pn : WebviewPanel) :
  panels s !! p = Some pn -> html pn <> "" ->
  panels (advance t s) !! p = Some pn.
Proof.
  intros Hp Hh. unfold advance. simpl.
  destruct (updateTimeout s) as [tm|]; [|done].
  destruct (deadline tm <=? t); [|done].
  destruct (documents s !! timerDocument tm) as [d|]; [|done].
  by apply update_false_keeps.
Qed.

Lemma advance_not_due (t : Z) (s : State) (tm : Timer) :
  updateTimeout s = Some tm -> t < deadline tm ->
  advance t s = setClock (Z.max (clock s) t) s.
Proof.
  intros Htm Hlt. unfold advance. rewrite Htm.
  by apply Z.leb_gt in Hlt as ->.
Qed.

Lemma advance_due (t : Z) (s : State) (tm : Timer) (doc : TextDocument)
    (pn : WebviewPanel) :
  updateTimeout s = Some tm -> deadline tm <= t ->
  documents s !! timerDocument tm = Some doc ->
  panels s !! timerPanel tm = Some pn -> html pn <> "" ->
  advance t s
  = setClock (Z.max (clock s) t)
      (emit (PostMessage (timerPanel tm) (updateContent (getText doc)))
         (setTimer None s)).
Proof.
  intros Htm Hle Hdoc Hp Hh. unfold advance. rewrite Htm, Hdoc.
  apply Z.leb_le in Hle as ->.
  by rewrite (update_loaded _ _ _ pn).
Qed.

Lemma documentChanged_sets (k text : string) (s : State)
    (doc : TextDocument) (p : nat) :
  documents s !! k = Some doc -> languageId doc = "html" ->
  previewPanels s !! k = Some p ->
  documentChanged k text s
  = setTimer (Some (mkTimer (clock s + 300) p k))
      (setDocuments (<[k := withText text doc]> (documents s)) s).
Proof.
  intros Hdoc Hlang Hreg. unfold documentChanged.
  rewrite Hdoc. simpl. by rewrite Hreg, Hlang.
Qed.

Lemma documentChanged_silent (k text : string) (s : State) :
  effects (documentChanged k text s) = effects s.
Proof.
  unfold documentChanged. destruct (documents s !! k) as [doc|]; [|done].
  simpl. destruct (previewPanels s !! k); [|done].
  by destruct (String.eqb (languageId doc) "html").
Qed.

End HostFacts.

(** The end-to-end scenario of the specification. *)
Example inject_scenario :
  let tag := "<base href=" +++ chr dquote +++ "https://vscode-resource/proj/"
               +++ chr dquote +++ ">" in
  injectBaseHref "<html><head><title>T</title></head><body>Hi</body></html>" tag
  = "<html><head>" +++ tag +++ "<title>T</title></head><body>Hi</body></html>".
Proof. reflexivity. Qed.

(** C6: the escaper replaces [&] first and then the double quote, so that
    every unit is escaped exactly once (a double quote becomes [&quot;],
    never [&amp;quot;], which is what the opposite order yields), and
    decoding the two character references of the escaped text gives back
    the original string, for every input. *)
Theorem escape_attribute_roundtrip :
  (forall s, escapeHtmlForAttributeValue s
             = replaceChar dquote "&quot;" (replaceChar amp "&amp;" s))
  /\ (forall s, escapeHtmlForAttributeValue s = escapeEach s)
  /\ escapeHtmlForAttributeValue (chr dquote) = "&quot;"
  /\ escapeQuoteFirst (chr dquote) = "&amp;quot;"
  /\ (forall s, decodeAttributeValue (escapeHtmlForAttributeValue s) = s).
Proof.
  split; [done|]. split; [apply escape_unfold|].
  split; [reflexivity|]. split; [reflexivity|].
  intros s. rewrite escape_unfold. unfold decodeAttributeValue.
  induction s as [|c s IH]; [done|].
  simpl. rewrite decode_escapeChar. by rewrite IH.
Qed.

(** X24: on markup of Latin-1 units, where lower-casing keeps every
    position: for every non-empty base-tag string, when the markup left by
    the removal pass contains a case-insensitive [<head>], the tag is
    inserted right after the [>] of the first one; when it contains none,
    the tag is put in front of the cleaned document; and one of the two
    cases always applies. *)
Theorem inject_after_first_head (rawHtml baseHrefTag : string) :
  baseHrefTag <> "" ->
  let cleanHtml := removeBaseTags rawHtml in
  (forall pre h post,
      cleanHtml = pre +++ h +++ post ->
      toLowerCase h = "<head>" ->
      (forall m, headAt cleanHtml m -> (String.length pre <= m)%nat) ->
      injectBaseHref rawHtml baseHrefTag = pre +++ h +++ baseHrefTag +++ post)
  /\ ((forall m, ~ headAt cleanHtml m) ->
      injectBaseHref rawHtml baseHrefTag = baseHrefTag +++ cleanHtml)
  /\ ((exists n, headAt cleanHtml n
                 /\ forall m, headAt cleanHtml m -> (n <= m)%nat)
      \/ (forall m, ~ headAt cleanHtml m)).
Proof.
  intros Htag clean. split; [|split].
  - intros pre h post. by apply inject_head.
  - by apply inject_no_head.
  - apply head_first_or_none.
Qed.

Lemma inject_after_first_head_witness :
  injectBaseHref
    "<!doctype html><HTML><Head><BASE href=old/><title>T</title></HEAD><head></head>"
    "<base href=u/>"
  = "<!doctype html><HTML><Head><base href=u/><title>T</title></HEAD><head></head>".
Proof.
  pose proof (inject_after_first_head
    "<!doctype html><HTML><Head><BASE href=old/><title>T</title></HEAD><head></head>"
    "<base href=u/>" ltac:(discriminate)) as [H _].
  apply (H "<!doctype html><HTML>" "<Head>"
           "<title>T</title></HEAD><head></head>"); [reflexivity..|].
  intros m Hm%headAt_iff.
  do 21 (destruct m as [|m]; [by vm_compute in Hm|]).
  simpl. lia.
Defined.

(** C1 (amended): when the base-tag string is one whole base tag and the
    single removal pass leaves no base tag behind, the output of the
    injector contains exactly one base tag, the supplied one; and with an
    empty base-tag string the injector returns its markup unchanged. *)
Theorem inject_single_base_tag :
  (forall rawHtml baseHrefTag,
      isBaseTag baseHrefTag = true ->
      baseTags (removeBaseTags rawHtml) = [] ->
      baseTags (injectBaseHref rawHtml baseHrefTag) = [baseHrefTag])
  /\ (forall rawHtml, injectBaseHref rawHtml "" = rawHtml).
Proof.
  split; [|done].
  intros raw tag Htag Hnil.
  assert (Hne : tag <> "") by (by intros ->).
  destruct (head_first_or_none (removeBaseTags raw))
    as [(n & (pre & h & post & Hclean & Hn & Hh) & Hmin) | Hno].
  - rewrite (inject_head raw tag pre h post); try done.
    2:{ intros m Hm. rewrite Hn. by apply Hmin. }
    rewrite Hclean, <- sapp_assoc in Hnil. rewrite <- sapp_assoc.
    apply baseTags_insert; [done..|].
    destruct (head_ends_gt _ Hh) as [x ->].
    rewrite <- sapp_assoc. apply hasChar_drop_last.
  - rewrite inject_no_head by done.
    apply (baseTags_insert "" (removeBaseTags raw) tag); [done..|].
    simpl. lia.
Qed.

Lemma inject_single_base_tag_witness :
  baseTags (injectBaseHref
              "<html><HEAD><Base href=old/><title>T</title><base target=_top /></HEAD></html>"
              "<base href=u/>")
  = ["<base href=u/>"].
Proof.
  apply (proj1 inject_single_base_tag); reflexivity.
Defined.

(** The single removal pass can splice a base tag together out of the text
    around a deleted one; the output then holds two base tags. *)
Lemma inject_single_base_tag_counterexample :
  isBaseTag "<base href=u/>" = true
  /\ baseTags "<ba<base>se>" = ["<base>"]
  /\ injectBaseHref "<ba<base>se>" "<base href=u/>" = "<base href=u/><base>"
  /\ baseTags (injectBaseHref "<ba<base>se>" "<base href=u/>")
     = ["<base href=u/>"; "<base>"].
Proof. repeat split; reflexivity. Qed.

(** C5: on every pair of strings, the injector compiled into the
    extension host and the copy inside the client script compute the same
    text. *)
Theorem inject_parity (rawHtml baseTag : string) :
  injectBaseHrefIntoString (JsString rawHtml) (JsString baseTag)
  = JsString (injectBaseHref rawHtml baseTag).
Proof.
  unfold injectBaseHrefIntoString, injectBaseHref. simpl.
  destruct (String.eqb baseTag "") eqn:Et; simpl.
  - destruct (String.eqb rawHtml "") eqn:Er; simpl; [|done].
    by apply String.eqb_eq in Er as ->.
  - destruct (negb (indexOf (toLowerCase (removeBaseTags rawHtml)) "<head>" 0
                    =? -1)); [|done].
    by destruct (negb (indexOf (removeBaseTags rawHtml) ">" _ =? -1)).
Qed.

(** C9 (amended): the injector returns the markup unchanged whenever the
    base-tag string is empty; the script copy does the same for an empty or
    absent base tag and answers the empty string for an absent markup; for
    an empty markup with a non-empty base tag the output is the base tag. *)
Theorem inject_noop_cases :
  (forall rawHtml, injectBaseHref rawHtml "" = rawHtml)
  /\ (forall rawHtml baseTag,
        truthy baseTag = false ->
        injectBaseHrefIntoString (JsString rawHtml) baseTag = JsString rawHtml)
  /\ (forall rawHtml baseTag,
        isString rawHtml = false ->
        injectBaseHrefIntoString rawHtml baseTag = JsString "")
  /\ (forall baseHrefTag,
        baseHrefTag <> "" -> injectBaseHref "" baseHrefTag = baseHrefTag).
Proof.
  split; [done|]. split; [|split].
  - intros raw tag Ht. unfold injectBaseHrefIntoString. rewrite Ht. simpl.
    destruct (String.eqb raw "") eqn:Er; simpl; [|done].
    by apply String.eqb_eq in Er as ->.
  - intros raw tag Hr. unfold injectBaseHrefIntoString. rewrite Hr.
    rewrite orb_true_r. by destruct raw.
  - intros tag Htag. rewrite inject_no_head; [apply sapp_nil_r | done |].
    intros m Hm%headAt_iff. by destruct m.
Qed.

Lemma inject_noop_cases_witness :
  injectBaseHrefIntoString (JsString "<p>x</p>") JsUndefined = JsString "<p>x</p>"
  /\ injectBaseHrefIntoString JsNull (JsString "<base href=u/>") = JsString ""
  /\ injectBaseHref "" "<base href=u/>" = "<base href=u/>".
Proof.
  destruct inject_noop_cases as (_ & H1 & H2 & H3).
  split; [by apply H1 | split; [by apply H2 | by apply H3]].
Defined.

(** An empty markup with a non-empty base tag does not come back empty. *)
Lemma inject_noop_cases_counterexample :
  injectBaseHref "" "<base href=u/>" <> "".
Proof. discriminate. Qed.




Section HostTheorems.

Context `{Host}.

(** C7: an update request to an allocated panel rebuilds the whole host
    page exactly when the reset is forced or the webview has no page yet;
    otherwise it posts exactly one message, which carries the document
    text as it is; and every message ever posted has the command
    [updateContent]. *)
Theorem update_full_or_incremental :
  (forall s p pn doc force,
      panels s !! p = Some pn ->
      force || String.eqb (html pn) "" = true ->
      let page := getWebviewHtml p (getText doc) (uri doc) (draws s) in
      let s' := updateWebviewContent p doc force s in
      panels s' = <[p := withHtml page pn]> (panels s)
      /\ effects s' = effects s ++ [SetHtml p page])
  /\ (forall s p pn doc force,
        panels s !! p = Some pn ->
        force || String.eqb (html pn) "" = false ->
        let s' := updateWebviewContent p doc force s in
        panels s' = panels s
        /\ effects s'
           = effects s ++ [PostMessage p (mkMessage "updateContent" (getText doc))])
  /\ (forall s p m,
        reachable s -> In (PostMessage p m) (effects s) ->
        command m = "updateContent").
Proof.
  split; [|split].
  - intros s p pn doc force Hp Hc. simpl.
    by rewrite (update_cases _ _ _ _ _ Hp), Hc.
  - intros s p pn doc force Hp Hc. simpl.
    by rewrite (update_cases _ _ _ _ _ Hp), Hc.
  - intros s p m Hs Hin. apply reachable_consistent in Hs.
    pose proof (messages_shape s Hs) as Hall.
    rewrite Forall_forall in Hall.
    apply (Hall (PostMessage p m)). by apply list_elem_of_In.
Qed.

(** C8 (amended): for a document that is not on the [file] scheme the
    resolver returns the empty string; for one that is, and when the
    editor's URI calls succeed, it returns the webview URL of the parent
    directory, ending in a slash, wrapped as a base tag; when one of the
    calls throws it returns the empty string. *)
Theorem base_href_resolver :
  (forall webview documentUri,
      scheme documentUri <> "file" ->
      getBaseHrefString webview documentUri = "")
  /\ (forall webview documentUri docDirUri webviewUri,
        scheme documentUri = "file" ->
        joinPath documentUri ".." = Some docDirUri ->
        asWebviewUri webview docDirUri = Some webviewUri ->
        exists href,
          getBaseHrefString webview documentUri
          = "<base href=" +++ chr dquote +++ href +++ chr dquote +++ ">"
          /\ endsWith href "/" = true
          /\ href = (if endsWith (uriText webviewUri) "/"
                     then uriText webviewUri
                     else uriText webviewUri +++ "/"))
  /\ (forall webview documentUri,
        scheme documentUri = "file" ->
        (joinPath documentUri ".." = None
         \/ exists docDirUri, joinPath documentUri ".." = Some docDirUri
                              /\ asWebviewUri webview docDirUri = None) ->
        getBaseHrefString webview documentUri = "").
Proof.
  split; [|split].
  - intros w u Hs. unfold getBaseHrefString.
    by apply String.eqb_neq in Hs as ->.
  - intros w u dir wu Hs Hj Ha. unfold getBaseHrefString.
    rewrite Hs, Hj. simpl. rewrite Ha. simpl.
    eexists. split; [done|]. split; [|done].
    destruct (endsWith (uriText wu) "/") eqn:E; [done|].
    unfold endsWith. rewrite slength_app. simpl String.length.
    replace (String.length (uriText wu) + 1 - 1)%nat
      with (String.length (uriText wu)) by lia.
    rewrite drop_app_length.
    apply andb_true_iff. split; [apply Nat.leb_le; lia | done].
  - intros w u Hs Hthrow. unfold getBaseHrefString. rewrite Hs. simpl.
    destruct Hthrow as [-> | (dir & -> & Ha)]; [done|].
    simpl. by rewrite Ha.
Qed.

(** C4: in every reachable state the registry entries are exactly the
    live panels, so no identity has two live surfaces; a preview request for
    an identity in the registry reveals the existing panel and posts it the
    current text, touching neither the registry nor the panel objects; and
    once a panel is closed its entry is gone, so that the next preview
    request for the identity creates and registers a panel that did not
    exist before. *)
Theorem registry_one_surface_per_identity (s : State) :
  reachable s ->
  (forall k p, previewPanels s !! k = Some p ->
     exists pn, panels s !! p = Some pn /\ viewType pn = k
                /\ disposed pn = false)
  /\ (forall p q pn qn,
        panels s !! p = Some pn -> panels s !! q = Some qn ->
        disposed pn = false -> disposed qn = false ->
        viewType pn = viewType qn -> p = q)
  /\ (forall k p doc,
        previewPanels s !! k = Some p ->
        documents s !! k = Some doc -> languageId doc = "html" ->
        let s' := handle (ShowPreviewCommand (Some k)) s in
        previewPanels s' = previewPanels s
        /\ panels s' = panels s
        /\ effects s'
           = effects s ++ [Reveal p; PostMessage p (updateContent (getText doc))])
  /\ (forall k p doc,
        previewPanels s !! k = Some p ->
        documents s !! k = Some doc -> languageId doc = "html" ->
        let s1 := handle (PanelClosed p) s in
        let s2 := handle (ShowPreviewCommand (Some k)) s1 in
        let p' := fresh (dom (panels s)) in
        previewPanels s1 !! k = None
        /\ (exists pn, panels s1 !! p = Some pn /\ disposed pn = true)
        /\ panels s !! p' = None
        /\ p' <> p
        /\ previewPanels s2 !! k = Some p'
        /\ (exists pn', panels s2 !! p' = Some pn' /\ viewType pn' = k
                        /\ disposed pn' = false /\ html pn' <> "")
        /\ In (CreateWebviewPanel p' k ("Yi Preview: " +++ basename (fileName doc)))
              (effects s2)).
Proof.
  intros Hs. pose proof (reachable_consistent s Hs) as Hc.
  split; [|split; [|split]].
  - apply (registered_live s Hc).
  - intros p q pn qn Hp Hq Hlp Hlq Hv.
    pose proof (live_registered s Hc p pn Hp Hlp) as Hrp.
    pose proof (live_registered s Hc q qn Hq Hlq) as Hrq.
    rewrite Hv in Hrp. congruence.
  - intros k p doc Hreg Hdoc Hlang. simpl. unfold showPreview.
    rewrite Hdoc, Hlang, Hreg. simpl.
    destruct (registered_live s Hc k p Hreg) as (pn & Hpn & _ & _).
    rewrite (update_loaded p doc (emit (Reveal p) s) pn);
      [|done | by apply (all_loaded s Hc p)].
    simpl. by rewrite <- app_assoc.
  - intros k p doc Hreg Hdoc Hlang. cbv zeta. cbn [handle].
    destruct (registered_live s Hc k p Hreg) as (pn & Hpn & Hv & Hl).
    assert (Hs1 : disposePanel p s
                  = emit (Dispose p)
                      (setRegistry (delete k (previewPanels s))
                         (setPanels (<[p := withDisposed pn]> (panels s)) s))).
    { unfold disposePanel. by rewrite Hpn, Hl, Hv. }
    rewrite Hs1.
    set (s1 := emit _ _).
    assert (Hreg1 : previewPanels s1 !! k = None) by apply lookup_delete_eq.
    assert (Hdom : dom (panels s1) = dom (panels s)).
    { simpl. apply dom_insert_lookup_L. by eexists. }
    rewrite (showPreview_creates k doc s1); [|done..].
    unfold created. rewrite Hdom. simpl.
    pose proof (fresh_panel s) as Hfresh.
    split; [done|].
    split; [exists (withDisposed pn); by rewrite lookup_insert_eq|].
    split; [done|].
    split; [intros Heq; rewrite Heq in Hfresh; congruence|].
    split; [by rewrite lookup_insert_eq|].
    split.
    + eexists. rewrite lookup_insert_eq. repeat split; done.
    + apply in_app_iff. right. by left.
Qed.

(** C3 (amended): two edits of one previewed document less than 300 ms
    apart, with no other event before the callback runs, lead to a single
    message to its panel, carrying the text of the second edit; the slot
    for the pending callback is shared by all documents: an edit of any
    previewed document that follows another edit within 300 ms replaces
    the pending callback, which then never runs; an edit by itself sends
    nothing; the pending callback always targets the panel that was opened
    for the document it reads, and sends one message with the text of that
    document, so an edit never updates the surface of another identity;
    and of two edits of previewed documents less than 300 ms apart, of the
    same document or of two, the single message that follows goes to the
    panel of the second edit and carries its text. *)
Theorem debounced_updates :
  (forall s k doc p pn text1 text2 t1 t2 T,
      documents s !! k = Some doc -> languageId doc = "html" ->
      previewPanels s !! k = Some p ->
      panels s !! p = Some pn -> html pn <> "" ->
      clock s <= t1 -> t1 <= t2 -> t2 < t1 + 300 -> t2 + 300 <= T ->
      effects (run s [(t1, DocumentChanged k text1);
                      (t2, DocumentChanged k text2);
                      (T, Tick)])
      = effects (advance t1 s) ++ [PostMessage p (updateContent text2)])
  /\ (forall s k doc p k' doc' p' text text' t t',
        documents s !! k = Some doc -> languageId doc = "html" ->
        previewPanels s !! k = Some p ->
        documents s !! k' = Some doc' -> languageId doc' = "html" ->
        previewPanels s !! k' = Some p' ->
        clock s <= t -> t <= t' -> t' < t + 300 ->
        let s' := run s [(t, DocumentChanged k text);
                         (t', DocumentChanged k' text')] in
        effects s' = effects (advance t s)
        /\ updateTimeout s' = Some (mkTimer (t' + 300) p' k'))
  /\ (forall s k text,
        effects (handle (DocumentChanged k text) s) = effects s)
  /\ (forall s tm,
        reachable s -> updateTimeout s = Some tm ->
        exists pn doc,
          panels s !! timerPanel tm = Some pn
          /\ viewType pn = timerDocument tm
          /\ documents s !! timerDocument tm = Some doc
          /\ forall t, deadline tm <= t ->
               effects (advance t s)
               = effects s ++ [PostMessage (timerPanel tm)
                                           (updateContent (getText doc))])
  /\ (forall s k doc p k' doc' p' pn' text text' t t' T,
        documents s !! k = Some doc -> languageId doc = "html" ->
        previewPanels s !! k = Some p ->
        documents s !! k' = Some doc' -> languageId doc' = "html" ->
        previewPanels s !! k' = Some p' ->
        panels s !! p' = Some pn' -> html pn' <> "" ->
        clock s <= t -> t <= t' -> t' < t + 300 -> t' + 300 <= T ->
        effects (run s [(t, DocumentChanged k text);
                        (t', DocumentChanged k' text');
                        (T, Tick)])
        = effects (advance t s) ++ [PostMessage p' (updateContent text')]).
Proof.
  split; [|split; [|split; [|split]]]; cycle 4.
  - intros s k doc p k' doc' p' pn' text text' t t' T
           Hdoc Hlang Hreg Hdoc' Hlang' Hreg' Hp' Hh' Hc Htt Hlt HT.
    unfold run. cbn [fold_left]. unfold step. cbn [fst snd handle].
    destruct (advance_frame t s) as (Hr0 & Hd0 & Hc0).
    pose proof (advance_keeps t s p' pn' Hp' Hh') as Hp0.
    remember (advance t s) as s0 eqn:Hs0. clear Hs0.
    rewrite (documentChanged_sets k text s0 doc p) by congruence.
    rewrite (advance_not_due t' _ (mkTimer (clock s0 + 300) p k));
      [|done | simpl; lia].
    assert (exists d, <[k := withText text doc]> (documents s0) !! k' = Some d
                      /\ languageId d = "html") as (d & Hd & Hld).
    { destruct (decide (k = k')) as [<-|Hne].
      - rewrite lookup_insert_eq. by eexists.
      - rewrite lookup_insert_ne by done. exists doc'. by rewrite Hd0. }
    rewrite (documentChanged_sets k' text' _ d p');
      [|done | done | simpl; congruence].
    erewrite (advance_due T _ (mkTimer _ p' k') (withText text' d) pn');
      [done | done | simpl; lia | simpl; by rewrite lookup_insert_eq
      | done | done].
  - intros s k doc p pn text1 text2 t1 t2 T Hdoc Hlang Hreg Hp Hh Hc H12 H2 HT.
    unfold run. cbn [fold_left]. unfold step. cbn [fst snd handle].
    destruct (advance_frame t1 s) as (Hr0 & Hd0 & Hc0).
    pose proof (advance_keeps t1 s p pn Hp Hh) as Hp0.
    remember (advance t1 s) as s0 eqn:Hs0. clear Hs0.
    rewrite (documentChanged_sets k text1 s0 doc p) by congruence.
    rewrite (advance_not_due t2 _ (mkTimer (clock s0 + 300) p k));
      [|done | simpl; lia].
    rewrite (documentChanged_sets k text2 _ (withText text1 doc) p);
      [| simpl; by rewrite lookup_insert_eq | done | simpl; congruence].
    erewrite (advance_due T _ (mkTimer _ p k)
                (withText text2 (withText text1 doc)) pn);
      [done | done | simpl; lia | simpl; by rewrite lookup_insert_eq
      | done | done].
  - intros s k doc p k' doc' p' text text' t t'
           Hdoc Hlang Hreg Hdoc' Hlang' Hreg' Hc Htt Hlt.
    unfold run. cbn [fold_left]. unfold step. cbn [fst snd handle].
    destruct (advance_frame t s) as (Hr0 & Hd0 & Hc0).
    remember (advance t s) as s0 eqn:Hs0. clear Hs0.
    rewrite (documentChanged_sets k text s0 doc p) by congruence.
    rewrite (advance_not_due t' _ (mkTimer (clock s0 + 300) p k));
      [|done | simpl; lia].
    assert (exists d, <[k := withText text doc]> (documents s0) !! k' = Some d
                      /\ languageId d = "html") as (d & Hd & Hld).
    { destruct (decide (k = k')) as [<-|Hne].
      - rewrite lookup_insert_eq. by eexists.
      - rewrite lookup_insert_ne by done. exists doc'. by rewrite Hd0. }
    rewrite (documentChanged_sets k' text' _ d p');
      [|done | done | simpl; congruence].
    simpl. split; [done|]. do 2 f_equal. lia.
  - intros s k text. apply documentChanged_silent.
  - intros s tm Hs Htm. apply reachable_consistent in Hs.
    destruct (timer_own s Hs tm Htm) as [(pn & Hpn & Hv) [doc Hdoc]].
    exists pn, doc. repeat split; try done.
    intros t Ht.
    rewrite (advance_due t s tm doc pn); try done.
    by apply (all_loaded s Hs (timerPanel tm)).
Qed.

End HostTheorems.

Lemma update_full_or_incremental_witness :
  let s := run (H := sampleHost) (initialState sampleDocs 0)
               [(0, ShowPreviewCommand (Some "file:///proj/page.html"))] in
  panels (updateWebviewContent (H := sampleHost) 0 pageDoc false s) = panels s
  /\ effects (updateWebviewContent (H := sampleHost) 0 pageDoc false s)
     = effects s ++ [PostMessage 0 (mkMessage "updateContent" "<p>v0</p>")].
Proof.
  intros s.
  destruct (update_full_or_incremental (H := sampleHost)) as (_ & Hinc & _).
  eapply (Hinc s 0%nat _ pageDoc false); reflexivity.
Defined.

Lemma base_href_resolver_witness :
  getBaseHrefString (H := sampleHost) 0 pageUri
  = "<base href=" +++ chr dquote
      +++ "https://vscode-resource/file:///proj/page.html/../"
      +++ chr dquote +++ ">".
Proof.
  destruct (base_href_resolver (H := sampleHost)) as (_ & Hok & _).
  destruct (Hok 0%nat pageUri _ _ eq_refl eq_refl eq_refl) as (href & -> & _ & ->).
  reflexivity.
Defined.

(** A document on the [file] scheme whose directory cannot be turned into
    a webview URI gets the empty string, not a base tag. *)
Lemma base_href_resolver_counterexample :
  scheme pageUri = "file"
  /\ getBaseHrefString (H := throwingHost) 0 pageUri = ""
  /\ forall href,
       getBaseHrefString (H := throwingHost) 0 pageUri
       <> "<base href=" +++ chr dquote +++ href +++ chr dquote +++ ">".
Proof. repeat split. intros href. discriminate. Qed.

Lemma registry_one_surface_per_identity_witness :
  let k := "file:///proj/page.html" in
  let s := step (H := sampleHost) (initialState sampleDocs 0)
                (0, ShowPreviewCommand (Some k)) in
  previewPanels s !! k = Some 0%nat
  /\ effects (handle (H := sampleHost) (ShowPreviewCommand (Some k)) s)
     = effects s ++ [Reveal 0; PostMessage 0 (updateContent "<p>v0</p>")]
  /\ previewPanels
       (handle (H := sampleHost) (ShowPreviewCommand (Some k))
          (handle (H := sampleHost) (PanelClosed 0) s)) !! k
     = Some 1%nat.
Proof.
  intros k s.
  assert (Hs : reachable (H := sampleHost) s).
  { apply reachable_step, reachable_initial. }
  destruct (registry_one_surface_per_identity (H := sampleHost) s Hs)
    as (_ & _ & Hshow & Hclose).
  split; [reflexivity|]. split.
  - apply (Hshow k 0%nat pageDoc); reflexivity.
  - destruct (Hclose k 0%nat pageDoc) as (_ & _ & _ & _ & Hnew & _);
      [reflexivity..|].
    exact Hnew.
Defined.

Lemma debounced_updates_witness :
  let k := "file:///proj/page.html" in
  let s := step (H := sampleHost) (initialState sampleDocs 0)
                (0, ShowPreviewCommand (Some k)) in
  effects (run (H := sampleHost) s
             [(10, DocumentChanged k "<p>v1</p>");
              (200, DocumentChanged k "<p>v2</p>");
              (500, Tick)])
  = effects (advance (H := sampleHost) 10 s)
      ++ [PostMessage 0 (updateContent "<p>v2</p>")]
  /\ effects (run (H := sampleHost) twoPreviews
                [(10, DocumentChanged k "<p>v1</p>");
                 (100, DocumentChanged "file:///proj/other.html" "<p>o1</p>");
                 (400, Tick)])
     = effects (advance (H := sampleHost) 10 twoPreviews)
         ++ [PostMessage 1 (updateContent "<p>o1</p>")].
Proof.
  intros k s.
  destruct (debounced_updates (H := sampleHost))
    as (Htwo & _ & _ & _ & Hany).
  split.
  - eapply (Htwo s k pageDoc 0%nat _ "<p>v1</p>" "<p>v2</p>" 10 200 500);
      try reflexivity; try discriminate; lia.
  - eapply (Hany twoPreviews k pageDoc 0%nat "file:///proj/other.html"
              otherDoc 1%nat);
      first [ discriminate | lia | by vm_compute
            | vm_compute; intros ?; discriminate ].
Defined.

(** Against C3 as stated: with two previews open, two edits of the first
    document within 300 ms followed by an edit of the second document
    before the callback runs: the only message goes to the second panel.
    The first document holds the text of its later edit, and its panel is
    never sent an update. *)
Lemma debounced_updates_counterexample :
  previewPanels twoPreviews !! "file:///proj/page.html" = Some 0%nat
  /\ previewPanels twoPreviews !! "file:///proj/other.html" = Some 1%nat
  /\ effects (run (H := sampleHost) twoPreviews overlappingEdits)
     = effects twoPreviews ++ [PostMessage 1 (updateContent "<p>o1</p>")]
  /\ getText <$> (documents (run (H := sampleHost) twoPreviews overlappingEdits)
                   !! "file:///proj/page.html")
     = Some "<p>v2</p>"
  /\ updateTimeout (run (H := sampleHost) twoPreviews overlappingEdits) = None.
Proof.
  split; [vm_compute; reflexivity|]. split; [vm_compute; reflexivity|].
  split; [vm_compute; reflexivity|]. split; vm_compute; reflexivity.
Qed.

(** ** Further properties of the string functions *)

Section EscapeFacts.

Lemma length_escapeChar (c : ascii) :
  String.length (escapeChar c)
  = (1 + 4 * (if Ascii.eqb c amp then 1 else 0)
       + 5 * (if Ascii.eqb c dquote then 1 else 0))%nat.
Proof.
  unfold escapeChar. destruct (Ascii.eqb c amp) eqn:Ea.
  - apply Ascii.eqb_eq in Ea as ->. reflexivity.
  - by destruct (Ascii.eqb c dquote).
Qed.

Lemma length_escapeEach (s : string) :
  String.length (escapeEach s)
  = (String.length s + 4 * countChar amp s + 5 * countChar dquote s)%nat.
Proof.
  induction s as [|c s IH]; [done|].
  cbn [escapeEach countChar String.length].
  rewrite slength_app, length_escapeChar, IH. lia.
Qed.

Lemma escapeEach_app (a b : string) :
  escapeEach (a +++ b) = escapeEach a +++ escapeEach b.
Proof.
  induction a as [|c a IH]; [done|].
  rewrite sapp_cons. cbn [escapeEach]. by rewrite IH, sapp_assoc.
Qed.

Lemma hasChar_escapeChar (c : ascii) : hasChar dquote (escapeChar c) = false.
Proof.
  unfold escapeChar. destruct (Ascii.eqb c amp); [done|].
  destruct (Ascii.eqb c dquote) eqn:Eq; [done|].
  simpl. by rewrite Eq.
Qed.

Lemma hasChar_escapeEach (s : string) : hasChar dquote (escapeEach s) = false.
Proof.
  induction s as [|c s IH]; [done|].
  cbn [escapeEach]. by rewrite hasChar_app, hasChar_escapeChar, IH.
Qed.

Lemma countChar_zero (c : ascii) (s : string) :
  countChar c s = 0%nat <-> hasChar c s = false.
Proof.
  induction s as [|x s IH]; [done|]. simpl.
  destruct (Ascii.eqb x c); simpl; [split; [lia | done] | exact IH].
Qed.

Lemma escapeEach_clean (s : string) :
  hasChar amp s = false -> hasChar dquote s = false -> escapeEach s = s.
Proof.
  induction s as [|c s IH]; [done|]. simpl.
  intros [Ha Hsa]%orb_false_iff [Hq Hsq]%orb_false_iff.
  unfold escapeChar. rewrite Ha, Hq. simpl. by rewrite IH.
Qed.

Lemma decode_escapeEach (s : string) :
  decodeAttrGo 0 (escapeEach s) = s.
Proof.
  induction s as [|c s IH]; [done|].
  cbn [escapeEach]. by rewrite decode_escapeChar, IH.
Qed.

End EscapeFacts.

(** X1: the escaped text holds no double quote, so it cannot end the
    attribute value it is embedded in. *)
Theorem escape_has_no_quote (unsafe : string) :
  hasChar dquote (escapeHtmlForAttributeValue unsafe) = false.
Proof. rewrite escape_unfold. apply hasChar_escapeEach. Qed.

(** X2: escaping adds four units for each ampersand and five for each
    double quote, and nothing else; so a string comes back unchanged exactly
    when it holds neither. *)
Theorem escape_length (unsafe : string) :
  String.length (escapeHtmlForAttributeValue unsafe)
  = (String.length unsafe + 4 * countChar amp unsafe
       + 5 * countChar dquote unsafe)%nat
  /\ (escapeHtmlForAttributeValue unsafe = unsafe
      <-> hasChar amp unsafe = false /\ hasChar dquote unsafe = false).
Proof.
  rewrite escape_unfold. split; [apply length_escapeEach|]. split.
  - intros Heq. apply (f_equal String.length) in Heq.
    rewrite length_escapeEach in Heq.
    split; apply countChar_zero; lia.
  - intros [Ha Hq]. by apply escapeEach_clean.
Qed.

(** X3: escaping works unit by unit: the escape of a concatenation is the
    concatenation of the escapes. *)
Theorem escape_concat (a b : string) :
  escapeHtmlForAttributeValue (a +++ b)
  = escapeHtmlForAttributeValue a +++ escapeHtmlForAttributeValue b.
Proof. rewrite !escape_unfold. apply escapeEach_app. Qed.

Section RemovalFacts.

(** The removed text and the kept text add up to the input, in both
    states of the scan. *)
Lemma scan_conserves (s : string) :
  (String.length s
   = String.length (removeBaseGo false s) + sumLengths (baseTagsGo None s))%nat
  /\ (forall acc, hasChar gt s = true ->
        (String.length acc + String.length s
         = String.length (removeBaseGo true s)
           + sumLengths (baseTagsGo (Some acc) s))%nat).
Proof.
  induction s as [|c s [IHout IHin]]; [done|]. split.
  - cbn [removeBaseGo baseTagsGo].
    destruct (baseTagStarts (String c s)) eqn:E.
    + apply baseTagStarts_head in E as [_ Hg].
      specialize (IHin (chr c) Hg). simpl in *. lia.
    + simpl. lia.
  - intros acc Hg. cbn [removeBaseGo baseTagsGo].
    simpl in Hg. destruct (Ascii.eqb c gt) eqn:Ec.
    + cbn [sumLengths]. rewrite slength_app. simpl. lia.
    + simpl in Hg. specialize (IHin (acc +++ chr c) Hg).
      rewrite slength_app in IHin. simpl in *. lia.
Qed.

Lemma firstGtIsLast_snoc (a : string) :
  hasChar gt a = false -> firstGtIsLast (a +++ chr gt) = true.
Proof.
  induction a as [|c a IH]; [done|]. simpl.
  intros [-> Ha]%orb_false_iff. by apply IH.
Qed.

Lemma firstGtIsLast_app (a b : string) :
  hasChar gt a = false -> firstGtIsLast (a +++ b) = firstGtIsLast b.
Proof.
  induction a as [|c a IH]; [done|]. simpl.
  intros [-> Ha]%orb_false_iff. by apply IH.
Qed.

(** Every match is a whole base tag, in both states of the scan. *)
Lemma scan_whole_tags (s : string) :
  Forall (fun t => isBaseTag t = true) (baseTagsGo None s)
  /\ (forall acc,
        hasChar gt acc = false ->
        matchesCI "<base" (acc +++ s) = true ->
        Forall (fun t => isBaseTag t = true) (baseTagsGo (Some acc) s)).
Proof.
  induction s as [|c s [IHout IHin]]; [by split|]. split.
  - cbn [baseTagsGo]. destruct (baseTagStarts (String c s)) eqn:E; [|done].
    pose proof (baseTagStarts_head _ _ E) as [Hc _].
    apply IHin.
    + simpl. by rewrite Hc.
    + unfold baseTagStarts in E. by apply andb_true_iff in E as [E _].
  - intros acc Hacc Hm. cbn [baseTagsGo].
    destruct (Ascii.eqb c gt) eqn:Ec.
    + apply Ascii.eqb_eq in Ec as ->. constructor; [|done].
      unfold isBaseTag. rewrite (firstGtIsLast_snoc _ Hacc), andb_true_r.
      replace (acc +++ String gt s) with ((acc +++ chr gt) +++ s) in Hm
        by (by rewrite sapp_assoc).
      rewrite <- (sapp_nil_r (acc +++ chr gt)).
      apply (matchesCI_within _ _ s ""); [done | done |].
      by rewrite hasChar_app, orb_true_r.
    + apply IHin.
      * by rewrite hasChar_app, Hacc; simpl; rewrite Ec.
      * by rewrite sapp_assoc.
Qed.

Lemma isBaseTag_length (t : string) :
  isBaseTag t = true -> (6 <= String.length t)%nat.
Proof.
  unfold isBaseTag. intros [Hm Hl]%andb_true_iff.
  destruct t as [|c0 [|c1 [|c2 [|c3 [|c4 [|c5 t]]]]]]; simpl in *;
    try done; try lia.
  all: repeat match goal with
         | H : _ && _ = true |- _ => apply andb_true_iff in H as [? ?]
         end; try done.
  apply Ascii.eqb_eq in H, H1, H2, H3, H0.
  apply lowerChar_not_gt in H, H1, H2, H3, H0; try done.
  by rewrite H, H1, H2, H3, H0 in Hl.
Qed.

(** Where no match starts, the removal pass keeps everything. *)
Lemma removeBaseGo_none (s : string) :
  (forall j, baseTagStarts (drop j s) = false) -> removeBaseGo false s = s.
Proof.
  induction s as [|c s IH]; intros H; [done|].
  cbn [removeBaseGo]. pose proof (H 0%nat) as H0. simpl in H0. rewrite H0.
  rewrite IH; [done|]. intros j. apply (H (S j)).
Qed.

Lemma removeBaseGo_skip (a rest : string) :
  (forall j, (j < String.length a)%nat ->
             baseTagStarts (drop j (a +++ rest)) = false) ->
  removeBaseGo false (a +++ rest) = a +++ removeBaseGo false rest.
Proof.
  induction a as [|c a IH]; intros H; [done|].
  rewrite !sapp_cons. cbn [removeBaseGo].
  pose proof (H 0%nat ltac:(simpl; lia)) as H0. simpl in H0. rewrite H0.
  rewrite IH; [done|]. intros j Hj. apply (H (S j)). simpl. lia.
Qed.

Lemma removeBaseGo_close (r rest : string) :
  firstGtIsLast r = true ->
  removeBaseGo true (r +++ rest) = removeBaseGo false rest.
Proof.
  induction r as [|c r IH]; [done|]. simpl.
  destruct (Ascii.eqb c gt); [|exact IH].
  by intros ->%String.eqb_eq.
Qed.

Lemma removeBaseGo_whole_tag (tag rest : string) :
  isBaseTag tag = true ->
  removeBaseGo false (tag +++ rest) = removeBaseGo false rest.
Proof.
  unfold isBaseTag. intros [Hm Hl]%andb_true_iff.
  destruct tag as [|c r]; [done|].
  assert (Hs : baseTagStarts (String c r) = true).
  { unfold baseTagStarts. by rewrite Hm, (firstGtIsLast_hasChar _ Hl). }
  pose proof (baseTagStarts_head _ _ Hs) as [Hc _].
  rewrite sapp_cons. cbn [removeBaseGo].
  assert (baseTagStarts (String c (r +++ rest)) = true) as ->.
  { rewrite <- sapp_cons. by apply baseTagStarts_app. }
  simpl in Hl. rewrite Hc in Hl. by apply removeBaseGo_close.
Qed.

Lemma drop_app_le (j : nat) (x y : string) :
  (j <= String.length x)%nat -> drop j (x +++ y) = drop j x +++ y.
Proof.
  revert j; induction x as [|c x IH]; intros [|j] Hj; simpl in *;
    try done; [lia|]. apply IH. lia.
Qed.

(** Removing the base tags again after a whole tag was put at a cut of a
    text without matches gives that text back. *)
Lemma removeBase_insert (a b tag : string) :
  isBaseTag tag = true ->
  baseTags (a +++ b) = [] ->
  (forall j, (j < String.length a)%nat -> hasChar gt (drop j a) = true) ->
  removeBaseTags (a +++ tag +++ b) = a +++ b.
Proof.
  intros Htag Hnil Ha. unfold removeBaseTags, baseTags in *.
  pose proof (baseTags_nil_inv _ Hnil) as Hno.
  rewrite removeBaseGo_skip.
  - rewrite (removeBaseGo_whole_tag _ _ Htag). f_equal.
    apply removeBaseGo_none. intros j.
    specialize (Hno (String.length a + j)%nat).
    by rewrite <- drop_drop, drop_app_length in Hno.
  - intros j Hj. rewrite drop_app_le by lia.
    destruct (baseTagStarts (drop j a +++ tag +++ b)) eqn:E; [|done].
    apply (baseTagStarts_within _ _ b) in E; [|by apply Ha].
    rewrite <- drop_app_le in E by lia. by rewrite Hno in E.
Qed.

(** The shape of every output of the injector for a non-empty tag. *)
Lemma inject_shape (rawHtml tag : string) :
  tag <> "" ->
  exists a b,
    removeBaseTags rawHtml = a +++ b
    /\ injectBaseHref rawHtml tag = a +++ tag +++ b
    /\ (forall j, (j < String.length a)%nat -> hasChar gt (drop j a) = true).
Proof.
  intros Htag.
  destruct (head_first_or_none (removeBaseTags rawHtml))
    as [(n & (pre & h & post & Hclean & Hn & Hh) & Hmin) | Hno].
  - exists (pre +++ h), post. split; [by rewrite sapp_assoc|]. split.
    + rewrite sapp_assoc. apply inject_head; try done.
      intros m Hm. rewrite Hn. by apply Hmin.
    + destruct (head_ends_gt _ Hh) as [x ->].
      rewrite <- sapp_assoc. apply hasChar_drop_last.
  - exists "", (removeBaseTags rawHtml). split; [done|]. split.
    + by apply inject_no_head.
    + simpl. lia.
Qed.

End RemovalFacts.

(** X4: the removal pass deletes exactly the matches of the pattern: the
    length of the input is the length of the cleaned text plus the lengths
    of the matches, so the pass never lengthens a text. *)
Theorem removal_conserves_length (s : string) :
  String.length s
  = (String.length (removeBaseTags s) + sumLengths (baseTags s))%nat
  /\ (String.length (removeBaseTags s) <= String.length s)%nat.
Proof.
  destruct (scan_conserves s) as [Hc _].
  unfold removeBaseTags, baseTags. split; lia.
Qed.

(** X5: every match the pass deletes is one whole base tag of at least six
    units, and the pass returns its input unchanged exactly when there is
    no match. *)
Theorem removal_identity_iff_no_tag (s : string) :
  Forall (fun t => isBaseTag t = true /\ (6 <= String.length t)%nat)
         (baseTags s)
  /\ (removeBaseTags s = s <-> baseTags s = []).
Proof.
  destruct (scan_whole_tags s) as [Hall _].
  destruct (scan_conserves s) as [Hc _].
  unfold removeBaseTags, baseTags. split.
  - eapply Forall_impl; [exact Hall|].
    intros t Ht. split; [done | by apply isBaseTag_length].
  - split.
    + intros Heq. rewrite Heq in Hc.
      destruct (baseTagsGo None s) as [|t l]; [done|].
      apply Forall_cons in Hall as [Ht%isBaseTag_length _].
      simpl in Hc. lia.
    + intros Hnil. apply removeBaseGo_none. by apply baseTags_nil_inv.
Qed.

(** X6: for a non-empty tag the output of the injector is the cleaned
    markup with the tag put in: its length is the sum of the two. *)
Theorem inject_length (rawHtml baseHrefTag : string) :
  baseHrefTag <> "" ->
  String.length (injectBaseHref rawHtml baseHrefTag)
  = (String.length (removeBaseTags rawHtml) + String.length baseHrefTag)%nat.
Proof.
  intros Htag.
  destruct (inject_shape rawHtml baseHrefTag Htag) as (a & b & -> & -> & _).
  rewrite !slength_app. lia.
Qed.

Lemma inject_length_witness :
  String.length (injectBaseHref "<head><base href=x></head>" "<base href=u/>")
  = (String.length (removeBaseTags "<head><base href=x></head>")
     + String.length "<base href=u/>")%nat.
Proof. apply inject_length. discriminate. Defined.

(** X7: when the supplied tag is one whole base tag and the removal pass
    left none behind, removing the base tags from the output gives back
    the cleaned markup; so injecting again, with the same or another
    whole tag, replaces the tag put in before. *)
Theorem inject_again_replaces (rawHtml tag1 tag2 : string) :
  isBaseTag tag1 = true ->
  baseTags (removeBaseTags rawHtml) = [] ->
  tag2 <> "" ->
  removeBaseTags (injectBaseHref rawHtml tag1) = removeBaseTags rawHtml
  /\ injectBaseHref (injectBaseHref rawHtml tag1) tag2
     = injectBaseHref rawHtml tag2.
Proof.
  intros Htag Hnil Hne.
  assert (Hne1 : tag1 <> "") by (by intros ->).
  assert (Hclean : removeBaseTags (injectBaseHref rawHtml tag1)
                   = removeBaseTags rawHtml).
  { destruct (inject_shape rawHtml tag1 Hne1) as (a & b & Hab & -> & Ha).
    rewrite Hab in *. by apply removeBase_insert. }
  split; [done|].
  unfold injectBaseHref at 1 3.
  by rewrite (tag_nonempty _ Hne), Hclean.
Qed.

Lemma inject_again_replaces_witness :
  injectBaseHref
    (injectBaseHref "<html><head><title>T</title></head></html>" "<base href=a/>")
    "<base href=b/>"
  = injectBaseHref "<html><head><title>T</title></head></html>" "<base href=b/>".
Proof.
  apply inject_again_replaces; [reflexivity | reflexivity | discriminate].
Defined.

(** ** Further properties of the host functions *)

Section ResolverFacts.

Context `{Host}.

Lemma get_Some_hasChar (s : string) (i : nat) (c : ascii) :
  String.get i s = Some c -> hasChar c s = true.
Proof.
  revert i; induction s as [|x s IH]; intros i; [done|].
  destruct i as [|i]; simpl.
  - intros [= ->]. by rewrite Ascii.eqb_refl.
  - intros Hg. rewrite (IH i Hg). apply orb_true_r.
Qed.

Lemma get_in_range (s : string) (i : nat) :
  (i < String.length s)%nat -> exists c, String.get i s = Some c.
Proof.
  revert i; induction s as [|x s IH]; intros i Hi; simpl in Hi; [lia|].
  destruct i as [|i]; simpl; [by eexists | apply IH; lia].
Qed.

Lemma charAt_length (s : string) (i : nat) :
  (String.length (charAt s i) <= 1)%nat
  /\ ((i < String.length s)%nat -> String.length (charAt s i) = 1%nat).
Proof.
  unfold charAt. split.
  - destruct (String.get i s); simpl; lia.
  - intros Hi. by destruct (get_in_range s i Hi) as [c ->].
Qed.

Lemma charAt_hasChar (s : string) (i : nat) (c : ascii) :
  hasChar c (charAt s i) = true -> hasChar c s = true.
Proof.
  unfold charAt. destruct (String.get i s) as [x|] eqn:E; [|done].
  simpl. rewrite orb_false_r. intros ->%Ascii.eqb_eq.
  by apply (get_Some_hasChar s i).
Qed.

Lemma nonceLoop_length_le (n seed : nat) (text : string) :
  (String.length (nonceLoop n seed text) <= String.length text + n)%nat.
Proof.
  revert seed text; induction n as [|n IH]; intros seed text; simpl; [lia|].
  etrans; [apply IH|]. rewrite slength_app.
  pose proof (charAt_length possible (random seed)) as [Hle _]. lia.
Qed.

Lemma nonceLoop_length (n seed : nat) (text : string) :
  (forall i, (seed <= i < seed + n)%nat -> (random i < 62)%nat) ->
  String.length (nonceLoop n seed text) = (String.length text + n)%nat.
Proof.
  revert seed text; induction n as [|n IH]; intros seed text Hr; simpl; [lia|].
  rewrite IH by (intros i Hi; apply Hr; lia).
  rewrite slength_app.
  pose proof (charAt_length possible (random seed)) as [_ Heq].
  rewrite Heq; [lia|]. apply (Hr seed). lia.
Qed.

Lemma nonceLoop_chars (n seed : nat) (text : string) (c : ascii) :
  hasChar c (nonceLoop n seed text) = true ->
  hasChar c text = true \/ hasChar c possible = true.
Proof.
  revert seed text; induction n as [|n IH]; intros seed text; simpl; [by left|].
  intros [Hc | Hc]%IH; [|by right].
  rewrite hasChar_app in Hc. apply orb_true_iff in Hc as [Hc | Hc]; [by left|].
  right. by apply (charAt_hasChar possible (random seed)).
Qed.

End ResolverFacts.

Section ResolverTheorems.

Context `{Host}.

(** X8: when the webview URI of the parent directory holds no [>], the
    resolver returns the empty string or one whole base tag, which is what
    the injector needs to leave exactly one base tag in its output. *)
Theorem base_href_is_whole_tag (webview : nat) (documentUri : Uri) :
  (forall docDirUri webviewUri,
      joinPath documentUri ".." = Some docDirUri ->
      asWebviewUri webview docDirUri = Some webviewUri ->
      hasChar gt (uriText webviewUri) = false) ->
  getBaseHrefString webview documentUri = ""
  \/ isBaseTag (getBaseHrefString webview documentUri) = true.
Proof.
  intros Hgt. unfold getBaseHrefString.
  destruct (negb (String.eqb (scheme documentUri) "file")); [by left|].
  destruct (joinPath documentUri "..") as [dir|] eqn:Hj; [|by left].
  simpl. destruct (asWebviewUri webview dir) as [wu|] eqn:Ha; [|by left].
  simpl. right. specialize (Hgt dir wu eq_refl Ha).
  unfold isBaseTag. apply andb_true_iff. split; [reflexivity|].
  set (href := if endsWith (uriText wu) "/" then _ else _).
  assert (Hh : hasChar gt href = false).
  { unfold href. destruct (endsWith (uriText wu) "/"); [done|].
    by rewrite hasChar_app, Hgt. }
  simpl. rewrite firstGtIsLast_app by exact Hh. reflexivity.
Qed.

(** X9: a nonce has at most 32 units, all of them letters or digits of
    [possible]; when the 32 random indices are in range it has exactly 32. *)
Theorem nonce_shape (seed : nat) :
  (String.length (getNonce seed) <= 32)%nat
  /\ (forall c, hasChar c (getNonce seed) = true -> hasChar c possible = true)
  /\ ((forall i, (seed <= i < seed + 32)%nat -> (random i < 62)%nat) ->
      String.length (getNonce seed) = 32%nat).
Proof.
  unfold getNonce. split; [|split].
  - apply (nonceLoop_length_le 32 seed "").
  - intros c Hc. by apply nonceLoop_chars in Hc as [Hc | Hc].
  - intros Hr. by rewrite nonceLoop_length.
Qed.


End ResolverTheorems.

Lemma base_href_is_whole_tag_witness :
  getBaseHrefString (H := sampleHost) 0 pageUri = ""
  \/ isBaseTag (getBaseHrefString (H := sampleHost) 0 pageUri) = true.
Proof.
  apply (base_href_is_whole_tag (H := sampleHost)).
  intros dir wu [= <-] [= <-]. reflexivity.
Defined.

Lemma nonce_shape_witness :
  String.length (getNonce (H := sampleHost) 7) = 32%nat.
Proof.
  apply (nonce_shape (H := sampleHost) 7).
  intros i _. apply (Nat.mod_upper_bound i 62). lia.
Defined.

(** ** Further properties of the event handlers *)

Section LifecycleFacts.

Context `{Host}.

Lemma persists_refl (s : State) : persists s s.
Proof. intros p pn Hp. by exists pn. Qed.

Lemma persists_trans (s1 s2 s3 : State) :
  persists s1 s2 -> persists s2 s3 -> persists s1 s3.
Proof.
  intros H12 H23 p pn Hp.
  destruct (H12 p pn Hp) as (pn2 & Hp2 & Hv2 & Hd2).
  destruct (H23 p pn2 Hp2) as (pn3 & Hp3 & Hv3 & Hd3).
  exists pn3. repeat split; [done | congruence | auto].
Qed.

Lemma persists_same (s s' : State) : panels s' = panels s -> persists s s'.
Proof. intros Heq p pn Hp. exists pn. by rewrite Heq. Qed.

Lemma persists_replace (s s' : State) (q : nat) (qn qn' : WebviewPanel) :
  panels s' = <[q := qn']> (panels s) ->
  panels s !! q = Some qn ->
  viewType qn' = viewType qn ->
  (disposed qn = true -> disposed qn' = true) ->
  persists s s'.
Proof.
  intros Heq Hq Hv Hd p pn Hp. rewrite Heq.
  destruct (decide (q = p)) as [->|Hne].
  - exists qn'. rewrite lookup_insert_eq. by simplify_eq.
  - exists pn. by rewrite lookup_insert_ne.
Qed.

Lemma persists_update (q : nat) (d : TextDocument) (f : bool) (s : State) :
  persists s (updateWebviewContent q d f s).
Proof.
  unfold updateWebviewContent.
  destruct (panels s !! q) as [qn|] eqn:Hq; [|apply persists_refl].
  destruct (f || String.eqb (html qn) ""); [|by apply persists_same].
  by eapply (persists_replace s _ q qn); [reflexivity | ..].
Qed.

Lemma persists_dispose (q : nat) (s : State) : persists s (disposePanel q s).
Proof.
  unfold disposePanel.
  destruct (panels s !! q) as [qn|] eqn:Hq; [|apply persists_refl].
  destruct (disposed qn); [apply persists_refl|].
  by eapply (persists_replace s _ q qn); [reflexivity | ..].
Qed.

Lemma persists_showPreview (editor : option string) (s : State) :
  persists s (showPreview editor s).
Proof.
  destruct editor as [k|]; [|by apply persists_same].
  unfold showPreview.
  destruct (documents s !! k) as [doc|] eqn:Hdoc; [|apply persists_refl].
  destruct (String.eqb (languageId doc) "html") eqn:Hlang; simpl;
    [|by apply persists_same].
  destruct (previewPanels s !! k) as [p|] eqn:Hreg.
  - eapply persists_trans; [|apply persists_update]. by apply persists_same.
  - eapply persists_trans; [|apply persists_update].
    intros p pn Hp. exists pn. simpl. rewrite lookup_insert_ne; [done|].
    intros Heq. rewrite <- Heq, fresh_panel in Hp. done.
Qed.

Lemma persists_viewState (q : nat) (v : bool) (s : State) :
  persists s (viewStateChanged q v s).
Proof.
  unfold viewStateChanged.
  destruct (panels s !! q) as [qn|] eqn:Hq; [|apply persists_refl].
  destruct (disposed qn); [apply persists_refl|].
  assert (Hvis : persists s
            (setPanels (<[q := withVisible v qn]> (panels s)) s)).
  { by eapply (persists_replace s _ q qn); [reflexivity | ..]. }
  destruct v; [|done].
  destruct (documents s !! viewType qn) as [doc|]; [|done].
  destruct (isClosed doc); [done|].
  eapply persists_trans; [exact Hvis | apply persists_update].
Qed.

Lemma persists_documentClosed (k : string) (s : State) :
  persists s (documentClosed k s).
Proof.
  unfold documentClosed.
  destruct (documents s !! k) as [doc|]; [|apply persists_refl]. simpl.
  destruct (previewPanels s !! k) as [p|]; [|by apply persists_same].
  eapply persists_trans; [|apply persists_dispose]. by apply persists_same.
Qed.

Lemma persists_documentChanged (k text : string) (s : State) :
  persists s (documentChanged k text s).
Proof.
  apply persists_same. unfold documentChanged.
  destruct (documents s !! k) as [doc|]; [|done]. simpl.
  destruct (previewPanels s !! k); [|done].
  by destruct (String.eqb (languageId doc) "html").
Qed.

Lemma persists_deactivate (s : State) : persists s (deactivate s).
Proof.
  unfold deactivate. simpl.
  match goal with
  | |- persists _ (setRegistry _ ?inner) => assert (Hin : persists s inner)
  end.
  { apply (map_fold_weak_ind (fun r _ => persists s r)).
    - by apply persists_same.
    - intros i x m r _ Hr. eapply persists_trans; [exact Hr|].
      apply persists_dispose. }
  eapply persists_trans; [exact Hin | by apply persists_same].
Qed.

Lemma persists_advance (t : Z) (s : State) : persists s (advance t s).
Proof.
  unfold advance.
  match goal with
  | |- persists _ (setClock _ ?inner) => assert (Hin : persists s inner)
  end.
  { destruct (updateTimeout s) as [tm|]; [|apply persists_refl].
    destruct (deadline tm <=? t); [|apply persists_refl].
    destruct (documents s !! timerDocument tm);
      [|by apply persists_same].
    eapply persists_trans; [|apply persists_update]. by apply persists_same. }
  eapply persists_trans; [exact Hin | by apply persists_same].
Qed.

Lemma persists_step (s : State) (te : Z * Event) : persists s (step s te).
Proof.
  unfold step.
  apply (persists_trans s (advance (fst te) s)); [apply persists_advance|].
  generalize (advance (fst te) s). intros s0.
  destruct (snd te) as [ed|k d|k t|k|p|p v| |]; cbn [handle].
  - apply persists_showPreview.
  - apply persists_same.
    destruct (documents s0 !! k) as [old|]; [|reflexivity].
    destruct (isClosed old); reflexivity.
  - apply persists_documentChanged.
  - apply persists_documentClosed.
  - apply persists_dispose.
  - apply persists_viewState.
  - apply persists_refl.
  - apply persists_deactivate.
Qed.

Lemma persists_run (trace : list (Z * Event)) (s : State) :
  persists s (run s trace).
Proof.
  revert s; induction trace as [|te trace IH]; intros s;
    [apply persists_refl|].
  simpl. eapply persists_trans; [apply persists_step | apply IH].
Qed.

Lemma reachable_run (trace : list (Z * Event)) (s : State) :
  reachable s -> reachable (run s trace).
Proof.
  revert s; induction trace as [|te trace IH]; intros s Hs; [done|].
  simpl. apply IH. by apply reachable_step.
Qed.

Lemma documentChanged_ungated (s : State) (k text : string)
    (doc : TextDocument) :
  documents s !! k = Some doc ->
  previewPanels s !! k = None \/ languageId doc <> "html" ->
  documentChanged k text s
  = setDocuments (<[k := withText text doc]> (documents s)) s.
Proof.
  intros Hdoc Hgate. unfold documentChanged. rewrite Hdoc. simpl.
  destruct Hgate as [-> | Hlang]; [done|].
  destruct (previewPanels s !! k); [|done].
  by apply String.eqb_neq in Hlang as ->.
Qed.

End LifecycleFacts.

Section LifecycleTheorems.

Context `{Host}.

(** X11: when a live panel with a loaded page becomes visible and its
    document is open, it is sent the current text at once, without the
    timer; when it becomes hidden nothing is sent. *)
Theorem reveal_updates_at_once (s : State) (p : nat) (pn : WebviewPanel)
    (doc : TextDocument) :
  panels s !! p = Some pn -> disposed pn = false -> html pn <> "" ->
  documents s !! viewType pn = Some doc -> isClosed doc = false ->
  effects (viewStateChanged p true s)
  = effects s ++ [PostMessage p (updateContent (getText doc))]
  /\ updateTimeout (viewStateChanged p true s) = updateTimeout s
  /\ effects (viewStateChanged p false s) = effects s.
Proof.
  intros Hp Hd Hh Hdoc Hopen. unfold viewStateChanged.
  rewrite Hp, Hd, Hdoc, Hopen.
  rewrite (update_loaded p doc _ (withVisible true pn));
    [done | by simpl; rewrite lookup_insert_eq | done].
Qed.

(** X12: a change of a document that has no preview panel, or is not an
    HTML document, neither cancels nor delays a pending update: when a
    previewed document is edited and such a document changes within the
    next 300 ms, the panel still gets the text of the edit once the 300 ms
    since that edit are over. *)
Theorem unpreviewed_edit_keeps_pending_update (s : State) (k k' : string)
    (doc doc' : TextDocument) (p : nat) (pn : WebviewPanel)
    (text text' : string) (t t' T : Z) :
  documents s !! k = Some doc -> languageId doc = "html" ->
  previewPanels s !! k = Some p ->
  panels s !! p = Some pn -> html pn <> "" ->
  documents s !! k' = Some doc' ->
  previewPanels s !! k' = None \/ languageId doc' <> "html" ->
  clock s <= t -> t <= t' -> t' < t + 300 -> t + 300 <= T ->
  let s' := run s [(t, DocumentChanged k text);
                   (t', DocumentChanged k' text');
                   (T, Tick)] in
  effects s' = effects (advance t s) ++ [PostMessage p (updateContent text)]
  /\ documents s' !! k' = Some (withText text' doc').
Proof.
  intros Hdoc Hlang Hreg Hp Hh Hdoc' Hgate Hc Htt Hlt HT.
  assert (Hne : k <> k').
  { intros <-. destruct Hgate as [Hg | Hg]; congruence. }
  unfold run. cbn [fold_left]. unfold step. cbn [fst snd handle].
  destruct (advance_frame t s) as (Hr0 & Hd0 & Hc0).
  pose proof (advance_keeps t s p pn Hp Hh) as Hp0.
  remember (advance t s) as s0 eqn:Hs0. clear Hs0.
  rewrite (documentChanged_sets k text s0 doc p) by congruence.
  rewrite (advance_not_due t' _ (mkTimer (clock s0 + 300) p k));
    [|done | simpl; lia].
  rewrite (documentChanged_ungated _ k' text' doc');
    [| simpl; rewrite lookup_insert_ne by done; congruence
     | simpl; by rewrite Hr0].
  erewrite (advance_due T _ (mkTimer _ p k) (withText text doc) pn);
    [| done | simpl; lia
     | simpl; rewrite lookup_insert_ne by done; by rewrite lookup_insert_eq
     | done | done].
  simpl. split; [done|]. by rewrite lookup_insert_eq.
Qed.

(** X13: the timer slot is shared by all documents: when a previewed
    document is edited and another previewed document is edited less than
    300 ms later, the only message that follows goes to the second panel;
    the first document keeps its new text but its panel is sent nothing,
    and no callback is left pending. *)
Theorem edit_elsewhere_drops_update (s : State) (k k' : string)
    (doc doc' : TextDocument) (p p' : nat) (pn' : WebviewPanel)
    (text text' : string) (t t' T : Z) :
  k <> k' ->
  documents s !! k = Some doc -> languageId doc = "html" ->
  previewPanels s !! k = Some p ->
  documents s !! k' = Some doc' -> languageId doc' = "html" ->
  previewPanels s !! k' = Some p' ->
  panels s !! p' = Some pn' -> html pn' <> "" ->
  clock s <= t -> t <= t' -> t' < t + 300 -> t' + 300 <= T ->
  let s' := run s [(t, DocumentChanged k text);
                   (t', DocumentChanged k' text');
                   (T, Tick)] in
  effects s' = effects (advance t s) ++ [PostMessage p' (updateContent text')]
  /\ documents s' !! k = Some (withText text doc)
  /\ updateTimeout s' = None.
Proof.
  intros Hne Hdoc Hlang Hreg Hdoc' Hlang' Hreg' Hp' Hh' Hc Htt Hlt HT.
  unfold run. cbn [fold_left]. unfold step. cbn [fst snd handle].
  destruct (advance_frame t s) as (Hr0 & Hd0 & Hc0).
  pose proof (advance_keeps t s p' pn' Hp' Hh') as Hp0.
  remember (advance t s) as s0 eqn:Hs0. clear Hs0.
  rewrite (documentChanged_sets k text s0 doc p) by congruence.
  rewrite (advance_not_due t' _ (mkTimer (clock s0 + 300) p k));
    [|done | simpl; lia].
  rewrite (documentChanged_sets k' text' _ doc' p');
    [| simpl; rewrite lookup_insert_ne by done; congruence
     | done | simpl; congruence].
  erewrite (advance_due T _ (mkTimer _ p' k') (withText text' doc') pn');
    [| done | simpl; lia | simpl; by rewrite lookup_insert_eq | done | done].
  simpl. split; [done|]. split; [|done].
  rewrite lookup_insert_ne by done. by rewrite lookup_insert_eq.
Qed.

(** X14: closing a document that has a preview disposes the panel and
    deletes its registry entry, and leaves the entries of all other
    identities as they are. *)
Theorem closing_document_closes_preview (s : State) (k : string) (p : nat)
    (doc : TextDocument) :
  reachable s ->
  previewPanels s !! k = Some p -> documents s !! k = Some doc ->
  let s' := handle (DocumentClosed k) s in
  previewPanels s' = delete k (previewPanels s)
  /\ (exists pn, panels s' !! p = Some pn /\ disposed pn = true)
  /\ effects s' = effects s ++ [Dispose p].
Proof.
  intros Hs Hreg Hdoc. apply reachable_consistent in Hs.
  destruct (registered_live s Hs k p Hreg) as (pn & Hpn & Hv & Hl).
  cbv zeta. cbn [handle]. unfold documentClosed. rewrite Hdoc. simpl.
  rewrite Hreg. unfold disposePanel. simpl. rewrite Hpn, Hl, Hv. simpl.
  split; [done|]. split; [|done].
  exists (withDisposed pn). by rewrite lookup_insert_eq.
Qed.

(** X15: [deactivate] leaves no registry entry, no pending callback and
    no live panel, and keeps every panel object. *)
Theorem deactivate_disposes_everything (s : State) :
  reachable s ->
  previewPanels (deactivate s) = ∅
  /\ updateTimeout (deactivate s) = None
  /\ (forall p pn, panels (deactivate s) !! p = Some pn -> disposed pn = true)
  /\ (forall p, is_Some (panels s !! p) -> is_Some (panels (deactivate s) !! p)).
Proof.
  intros Hs. apply reachable_consistent in Hs.
  pose proof (consistent_deactivate s Hs) as Hd.
  split; [done|]. split.
  - destruct (updateTimeout (deactivate s)) as [tm|] eqn:Htm; [|done].
    exfalso. revert Htm. unfold deactivate. simpl.
    generalize (previewPanels s).
    apply (map_fold_weak_ind
             (fun r _ => updateTimeout r = Some tm -> False)); [done|].
    intros i x m r _ IH. unfold disposePanel.
    destruct (panels r !! x) as [xn|]; [|done].
    by destruct (disposed xn).
  - split.
    + intros p pn Hp. destruct (disposed pn) eqn:Hl; [done|].
      pose proof (live_registered _ Hd p pn Hp Hl) as Hr.
      change (previewPanels (deactivate s)) with (∅ : gmap string nat) in Hr.
      by rewrite lookup_empty in Hr.
    + intros p [pn Hp].
      destruct (persists_deactivate s p pn Hp) as (pn' & Hp' & _).
      by eexists.
Qed.

(** X16: a disposed panel never comes back into the registry: whatever
    events follow, its panel object stays disposed and keeps its identity,
    and no registry entry points to it.  (Nothing is said about the
    effects: a callback that was pending when the panel went away still
    addresses it.) *)
Theorem disposed_panel_stays_out_of_registry (s : State) (p : nat)
    (pn : WebviewPanel) (trace : list (Z * Event)) :
  reachable s ->
  panels s !! p = Some pn -> disposed pn = true ->
  (exists pn', panels (run s trace) !! p = Some pn'
               /\ disposed pn' = true /\ viewType pn' = viewType pn)
  /\ (forall k, previewPanels (run s trace) !! k <> Some p).
Proof.
  intros Hs Hp Hd.
  destruct (persists_run trace s p pn Hp) as (pn' & Hp' & Hv & Hd').
  split; [exists pn'; auto|].
  intros k Hk.
  pose proof (reachable_consistent _ (reachable_run trace s Hs)) as Hc.
  destruct (registered_live _ Hc k p Hk) as (qn & Hqn & _ & Hl).
  rewrite Hp' in Hqn. simplify_eq. rewrite Hd' in Hl; done.
Qed.

(** X17: a pending callback runs at most once: once the clock has passed
    its deadline the slot is empty, and letting more time pass sends
    nothing more; with an empty slot the passing of time sends nothing. *)
Theorem pending_callback_runs_once (s : State) :
  (forall tm t1 t2,
      updateTimeout s = Some tm -> deadline tm <= t1 ->
      updateTimeout (advance t1 s) = None
      /\ effects (advance t2 (advance t1 s)) = effects (advance t1 s))
  /\ (forall t, updateTimeout s = None -> effects (advance t s) = effects s).
Proof.
  assert (Hempty : forall r t,
            updateTimeout r = None -> effects (advance t r) = effects r).
  { intros r t Hr. unfold advance. by rewrite Hr. }
  split; [|intros t; apply Hempty].
  intros tm t1 t2 Htm Hle.
  assert (Hnone : updateTimeout (advance t1 s) = None).
  { unfold advance. rewrite Htm. apply Z.leb_le in Hle as ->. simpl.
    destruct (documents s !! timerDocument tm) as [d|]; [|done].
    by destruct (update_frame (timerPanel tm) d false (setTimer None s))
      as (_ & _ & -> & _). }
  split; [done | by apply Hempty].
Qed.

End LifecycleTheorems.

Lemma reveal_updates_at_once_witness :
  effects (viewStateChanged (H := sampleHost) 0 true onePreview)
  = effects onePreview ++ [PostMessage 0 (updateContent "<p>v0</p>")].
Proof.
  eapply (proj1 (reveal_updates_at_once (H := sampleHost)
                   onePreview 0 _ pageDoc _ _ _ _ _)).
  Unshelve. all: try reflexivity. discriminate.
Defined.

Lemma unpreviewed_edit_keeps_pending_update_witness :
  effects (run (H := sampleHost) onePreview
             [(10, DocumentChanged "file:///proj/page.html" "<p>v1</p>");
              (100, DocumentChanged "file:///proj/other.html" "<p>o1</p>");
              (310, Tick)])
  = effects (advance (H := sampleHost) 10 onePreview)
      ++ [PostMessage 0 (updateContent "<p>v1</p>")].
Proof.
  pose proof (unpreviewed_edit_keeps_pending_update (H := sampleHost)
                onePreview "file:///proj/page.html" "file:///proj/other.html"
                pageDoc otherDoc 0) as Hx.
  edestruct Hx as [Heff _]; [..|exact Heff];
    first [ discriminate | lia | by vm_compute
          | vm_compute; intros ?; discriminate
          | left; by vm_compute ].
Defined.

Lemma edit_elsewhere_drops_update_witness :
  effects (run (H := sampleHost) twoPreviews
             [(10, DocumentChanged "file:///proj/page.html" "<p>v1</p>");
              (100, DocumentChanged "file:///proj/other.html" "<p>o1</p>");
              (400, Tick)])
  = effects (advance (H := sampleHost) 10 twoPreviews)
      ++ [PostMessage 1 (updateContent "<p>o1</p>")].
Proof.
  pose proof (edit_elsewhere_drops_update (H := sampleHost) twoPreviews
                "file:///proj/page.html" "file:///proj/other.html"
                pageDoc otherDoc 0 1) as Hx.
  edestruct Hx as [Heff _]; [..|exact Heff];
    first [ discriminate | lia | by vm_compute
          | vm_compute; intros ?; discriminate ].
Defined.

Lemma closing_document_closes_preview_witness :
  previewPanels
    (handle (H := sampleHost) (DocumentClosed "file:///proj/page.html")
       onePreview)
  = delete "file:///proj/page.html" (previewPanels onePreview).
Proof.
  eapply (proj1 (closing_document_closes_preview (H := sampleHost) onePreview
                   "file:///proj/page.html" 0 pageDoc _ _ _)).
  Unshelve.
  - apply reachable_step, reachable_initial.
  - reflexivity.
  - reflexivity.
Defined.

Lemma deactivate_disposes_everything_witness :
  previewPanels (deactivate twoPreviews) = ∅.
Proof.
  apply (deactivate_disposes_everything (H := sampleHost) twoPreviews).
  apply reachable_step, reachable_step, reachable_initial.
Defined.

Lemma disposed_panel_stays_out_of_registry_witness :
  let closed := step (H := sampleHost) onePreview (2, PanelClosed 0) in
  exists pn',
    panels (run (H := sampleHost) closed
              [(5, ShowPreviewCommand (Some "file:///proj/page.html"))]) !! 0%nat
    = Some pn'
    /\ disposed pn' = true.
Proof.
  intros closed.
  assert (Hr : reachable (H := sampleHost) closed).
  { apply reachable_step, reachable_step, reachable_initial. }
  destruct (panels closed !! 0%nat) as [pn|] eqn:Hp; [|by vm_compute in Hp].
  assert (Hd : disposed pn = true).
  { vm_compute in Hp. by injection Hp as <-. }
  destruct (disposed_panel_stays_out_of_registry (H := sampleHost) closed 0 pn
              [(5, ShowPreviewCommand (Some "file:///proj/page.html"))]
              Hr Hp Hd) as [(pn' & Hp' & Hd' & _) _].
  exact (ex_intro _ pn' (conj Hp' Hd')).
Defined.

Lemma pending_callback_runs_once_witness :
  let edited := step (H := sampleHost) onePreview
                     (10, DocumentChanged "file:///proj/page.html" "<p>v1</p>") in
  effects (advance (H := sampleHost) 900 (advance (H := sampleHost) 400 edited))
  = effects (advance (H := sampleHost) 400 edited).
Proof.
  intros edited.
  destruct (pending_callback_runs_once (H := sampleHost) edited) as [Honce _].
  edestruct (Honce (mkTimer 310 0 "file:///proj/page.html") 400 900)
    as [_ Heff]; [..|exact Heff].
  - by vm_compute.
  - simpl. lia.
Defined.

(** ** The client script *)

Section ClientFacts.

Lemma coherent_initial (baseTag doc : string) :
  clientCoherent (initialClient baseTag doc).
Proof.
  split; simpl; try done. by do 3 right; left.
Qed.

Lemma presets_cases (sz : string) :
  In sz presets ->
  sz = "mobile" \/ sz = "tablet" \/ sz = "laptop" \/ sz = "desktop".
Proof. simpl. intuition. Qed.

Lemma coherent_message (command : string) (v : jsval) (c : Client) :
  clientCoherent c -> clientCoherent (onMessage command v c).
Proof.
  intros [H1 H2 H3 H4 H5 H6]. unfold onMessage.
  by destruct (String.eqb command "updateContent").
Qed.

(** What a click on a size button other than the current one does. *)
Lemma sizeClick_changes (i : nat) (sz : string) (c : Client) :
  clientCoherent c -> presets !! i = Some sz -> sz <> currentSize c ->
  onSizeClick i c
  = mkClient sz false (baseHrefTagString c)
             (map (fun x => mkButton x (String.eqb x sz)) presets)
             [sz]
             (if String.eqb sz "desktop" then "stretch" else "flex-start")
             (String.eqb sz "desktop") (srcdoc c).
Proof.
  intros [H1 H2 H3 H4 H5 H6] Hi Hne. unfold onSizeClick. rewrite H2.
  apply presets_cases in H1.
  do 4 (destruct i as [|i];
        [simpl in Hi; injection Hi as <-;
         destruct H1 as [E | [E | [E | E]]]; rewrite E in *;
         try congruence; reflexivity|]).
  done.
Qed.

Lemma sizeClick_same (i : nat) (c : Client) :
  clientCoherent c -> presets !! i = Some (currentSize c) ->
  onSizeClick i c = c.
Proof.
  intros [H1 H2 H3 H4 H5 H6] Hi. unfold onSizeClick. rewrite H2.
  do 4 (destruct i as [|i];
        [simpl in Hi; injection Hi as Hi; rewrite <- Hi; reflexivity|]).
  done.
Qed.

Lemma sizeClick_outside (i : nat) (c : Client) :
  clientCoherent c -> presets !! i = None -> onSizeClick i c = c.
Proof.
  intros [H1 H2 H3 H4 H5 H6] Hi. unfold onSizeClick. rewrite H2.
  do 4 (destruct i as [|i]; [done|]). done.
Qed.

Lemma coherent_sizeClick (i : nat) (c : Client) :
  clientCoherent c -> clientCoherent (onSizeClick i c).
Proof.
  intros Hc. destruct (presets !! i) as [sz|] eqn:Hi.
  - destruct (decide (sz = currentSize c)) as [->|Hne].
    + by rewrite sizeClick_same.
    + rewrite (sizeClick_changes i sz c Hc Hi Hne).
      assert (Hin : In sz presets).
      { apply list_elem_of_In. by eapply list_elem_of_lookup_2. }
      split; [exact Hin | simpl; try done ..].
  - by rewrite sizeClick_outside.
Qed.

(** What a click on the orientation button does outside [desktop]. *)
Lemma orientationClick_flips (c : Client) :
  clientCoherent c -> currentSize c <> "desktop" ->
  onOrientationClick c
  = mkClient (currentSize c) (negb (isLandscape c)) (baseHrefTagString c)
             (sizeButtons c)
             (currentSize c
                :: (if negb (isLandscape c) then ["landscape"] else []))
             (alignItems c) false (srcdoc c).
Proof.
  intros [H1 H2 H3 H4 H5 H6] Hne. unfold onOrientationClick.
  apply String.eqb_neq in Hne. rewrite Hne.
  unfold updateOrientationButtonState. simpl. rewrite Hne, H3.
  apply presets_cases in H1 as [-> | [-> | [-> | ->]]];
    by destruct (isLandscape c).
Qed.

Lemma coherent_orientationClick (c : Client) :
  clientCoherent c -> clientCoherent (onOrientationClick c).
Proof.
  intros Hc.
  destruct (String.eqb (currentSize c) "desktop") eqn:Ed.
  - unfold onOrientationClick. by rewrite Ed.
  - pose proof Ed as Hne. apply String.eqb_neq in Hne.
    rewrite (orientationClick_flips c Hc Hne).
    destruct Hc as [H1 H2 H3 H4 H5 H6]. split; simpl; done.
Qed.

Lemma coherent_handle (e : ClientEvent) (c : Client) :
  clientCoherent c -> clientCoherent (clientHandle e c).
Proof.
  destruct e as [cmd v|i|]; simpl.
  - apply coherent_message.
  - apply coherent_sizeClick.
  - apply coherent_orientationClick.
Qed.

Lemma script_copy_on_strings (rawHtml baseTag : string) :
  injectBaseHrefIntoString (JsString rawHtml) (JsString baseTag)
  = JsString (injectBaseHref rawHtml baseTag).
Proof.
  unfold injectBaseHrefIntoString, injectBaseHref. simpl.
  destruct (String.eqb baseTag "") eqn:Et; simpl.
  - destruct (String.eqb rawHtml "") eqn:Er; simpl; [|done].
    by apply String.eqb_eq in Er as ->.
  - destruct (negb (indexOf (toLowerCase (removeBaseTags rawHtml)) "<head>" 0
                    =? -1)); [|done].
    by destruct (negb (indexOf (removeBaseTags rawHtml) ">" _ =? -1)).
Qed.

End ClientFacts.

(** X18: whatever messages and clicks arrive, the page and the variables
    of the script agree: the size is one of the four presets and exactly
    its button is marked active; the wrapper has the size class, and the
    class [landscape] exactly in landscape; the orientation button is
    disabled exactly for [desktop]; and [desktop] is never landscape. *)
Theorem client_stays_coherent (baseTag doc : string)
    (events : list ClientEvent) :
  clientCoherent (clientRun (initialClient baseTag doc) events).
Proof.
  unfold clientRun.
  assert (Hgen : forall c, clientCoherent c ->
            clientCoherent (fold_left (fun acc e => clientHandle e acc)
                                      events c)).
  { induction events as [|e events IH]; intros c Hc; [done|].
    simpl. by apply IH, coherent_handle. }
  apply Hgen, coherent_initial.
Qed.

(** X19: a click on the button of another preset selects it, goes back
    to portrait and drops the landscape class, and disables the orientation
    button exactly when the new preset is [desktop]; a click on the button
    of the current preset changes nothing, the orientation included. *)
Theorem size_click_resets_orientation (c : Client) (i : nat) (sz : string) :
  clientCoherent c -> presets !! i = Some sz ->
  (sz <> currentSize c ->
     currentSize (onSizeClick i c) = sz
     /\ isLandscape (onSizeClick i c) = false
     /\ wrapperClasses (onSizeClick i c) = [sz]
     /\ orientationDisabled (onSizeClick i c) = String.eqb sz "desktop"
     /\ srcdoc (onSizeClick i c) = srcdoc c)
  /\ (sz = currentSize c -> onSizeClick i c = c).
Proof.
  intros Hc Hi. split.
  - intros Hne. by rewrite (sizeClick_changes i sz c Hc Hi Hne).
  - intros ->. by apply sizeClick_same.
Qed.

Lemma size_click_resets_orientation_witness :
  let c := clientRun (initialClient "" "") [ClickSize 0; ClickOrientation] in
  isLandscape c = true
  /\ isLandscape (onSizeClick 1 c) = false
  /\ wrapperClasses (onSizeClick 1 c) = ["tablet"].
Proof.
  intros c. split; [reflexivity|].
  destruct (size_click_resets_orientation c 1 "tablet") as [Hchg _].
  - apply client_stays_coherent.
  - reflexivity.
  - destruct Hchg as (_ & Hl & Hw & _); [discriminate|]. by split.
Defined.

(** X20: outside [desktop] two clicks on the orientation button bring
    the page back to where it was; in [desktop] a click does nothing. *)
Theorem orientation_toggle_twice (c : Client) :
  clientCoherent c ->
  onOrientationClick (onOrientationClick c) = c
  /\ (currentSize c = "desktop" -> onOrientationClick c = c)
  /\ (currentSize c <> "desktop" ->
      isLandscape (onOrientationClick c) = negb (isLandscape c)).
Proof.
  intros Hc. destruct (String.eqb (currentSize c) "desktop") eqn:Ed.
  - assert (Hid : onOrientationClick c = c).
    { unfold onOrientationClick. by rewrite Ed. }
    apply String.eqb_eq in Ed.
    split; [by rewrite !Hid|]. split; [done | by intros Hne].
  - pose proof Ed as Hne. apply String.eqb_neq in Hne.
    pose proof (coherent_orientationClick c Hc) as Hc'.
    split; [|split; [by intros Heq | by rewrite orientationClick_flips]].
    rewrite (orientationClick_flips (onOrientationClick c) Hc');
      rewrite (orientationClick_flips c Hc Hne); simpl; [|done].
    destruct Hc as [H1 H2 H3 H4 H5 H6].
    destruct c as [cs il bt bs wc al od sd]. simpl in *.
    rewrite negb_involutive. subst wc od. rewrite Ed.
    by destruct il.
Qed.

Lemma orientation_toggle_twice_witness :
  let c := clientRun (initialClient "" "") [ClickSize 2] in
  onOrientationClick (onOrientationClick c) = c.
Proof.
  intros c. apply orientation_toggle_twice, client_stays_coherent.
Defined.

Section ClientTheorems.

Context `{Host}.

(** X21: an [updateContent] message makes the frame show the markup with
    the base tag put in, which is what the [srcdoc] attribute of a freshly
    built host page decodes to for the same text; it changes nothing else,
    and a message with another command changes nothing at all. *)
Theorem incremental_update_matches_reload (c : Client) (webview : nat)
    (text : string) (documentUri : Uri) :
  baseHrefTagString c = getBaseHrefString webview documentUri ->
  srcdoc (onMessage "updateContent" (JsString text) c)
  = decodeAttributeValue (srcdocAttribute webview text documentUri)
  /\ onMessage "updateContent" (JsString text) c
     = mkClient (currentSize c) (isLandscape c) (baseHrefTagString c)
                (sizeButtons c) (wrapperClasses c) (alignItems c)
                (orientationDisabled c)
                (injectBaseHref text (baseHrefTagString c))
  /\ (forall command v, command <> "updateContent" -> onMessage command v c = c).
Proof.
  intros Hbase. unfold onMessage. simpl.
  rewrite script_copy_on_strings. simpl. split; [|split].
  - unfold srcdocAttribute, decodeAttributeValue.
    by rewrite escape_unfold, decode_escapeEach, Hbase.
  - done.
  - intros command v Hne. by apply String.eqb_neq in Hne as ->.
Qed.

End ClientTheorems.

Lemma incremental_update_matches_reload_witness :
  let c := initialClient (getBaseHrefString (H := sampleHost) 0 pageUri) "" in
  srcdoc (onMessage "updateContent" (JsString "<head></head>") c)
  = decodeAttributeValue
      (srcdocAttribute (H := sampleHost) 0 "<head></head>" pageUri).
Proof.
  intros c.
  apply (incremental_update_matches_reload (H := sampleHost) c 0
           "<head></head>" pageUri).
  reflexivity.
Defined.

(** ** The injector on UTF-16 code units *)

Section Utf16Facts.

Import Utf16.

Lemma u16_startsWith_app (pat post : list N) :
  startsWith (pat ++ post) pat = true.
Proof.
  induction pat as [|p pat IH]; simpl; [done|].
  by rewrite N.eqb_refl, IH.
Qed.

Lemma u16_search_first (pat s : list N) (k n : nat) :
  (forall j, (j < n)%nat -> startsWith (skipn j s) pat = false) ->
  startsWith (skipn n s) pat = true ->
  search pat s k = Some (k + n)%nat.
Proof.
  revert s k; induction n as [|n IH]; intros s k Hlt Hn.
  - rewrite skipn_O in Hn. destruct s; cbn [search]; rewrite Hn; f_equal; lia.
  - pose proof (Hlt 0%nat ltac:(lia)) as H0. rewrite skipn_O in H0.
    destruct s as [|c s].
    + rewrite skipn_nil in Hn. congruence.
    + cbn [search]. rewrite H0. rewrite skipn_cons in Hn.
      rewrite (IH s (S k)); [f_equal; lia | | exact Hn].
      intros j Hj. specialize (Hlt (S j) ltac:(lia)).
      by rewrite skipn_cons in Hlt.
Qed.

Lemma u16_search_none (pat s : list N) (k : nat) :
  (forall j, startsWith (skipn j s) pat = false) -> search pat s k = None.
Proof.
  revert k; induction s as [|c s IH]; intros k Hall.
  - pose proof (Hall 0%nat) as H0. rewrite skipn_O in H0.
    cbn [search]. by rewrite H0.
  - pose proof (Hall 0%nat) as H0. rewrite skipn_O in H0.
    cbn [search]. rewrite H0.
    apply IH. intros j. specialize (Hall (S j)). by rewrite skipn_cons in Hall.
Qed.

(** A unit lower-cases to one unit, except U+0130. *)
Lemma lowerUnit_cases (u : N) :
  (u = dottedI /\ lowerUnit u = [105%N; 775%N])
  \/ (u <> dottedI /\ exists x, lowerUnit u = [x]).
Proof.
  unfold lowerUnit, dottedI.
  destruct (N.eqb_spec u 304) as [->|Hne]; [by left|]. right.
  split; [done|].
  destruct (_ || _); [by eexists|].
  destruct (u =? 8490)%N; [by eexists|].
  destruct (u =? 8491)%N; by eexists.
Qed.

Lemma lowerUnit_gt (u : N) : lowerUnit u = [gtUnit] -> u = gtUnit.
Proof.
  unfold lowerUnit, gtUnit.
  destruct (N.leb_spec 65 u), (N.leb_spec u 90), (N.leb_spec 192 u),
    (N.leb_spec u 222), (N.eqb_spec u 215), (N.eqb_spec u 304),
    (N.eqb_spec u 8490), (N.eqb_spec u 8491);
    simpl; intros [=]; lia.
Qed.

Lemma lowerUnit_of_gt : lowerUnit gtUnit = [gtUnit].
Proof. reflexivity. Qed.

Lemma u16_length_lower (s : list N) :
  length (toLowerCase s) = (length s + countUnit dottedI s)%nat.
Proof.
  induction s as [|u s IH]; [done|]. simpl.
  rewrite length_app, IH.
  destruct (lowerUnit_cases u) as [[-> ->] | [Hne [x ->]]]; simpl; [lia|].
  apply N.eqb_neq in Hne. rewrite Hne. lia.
Qed.

Lemma u16_lower_app (a b : list N) :
  toLowerCase (a ++ b) = toLowerCase a ++ toLowerCase b.
Proof.
  induction a as [|u a IH]; simpl; [done|]. by rewrite IH, app_assoc.
Qed.

Lemma u16_count_app (c : N) (a b : list N) :
  countUnit c (a ++ b) = (countUnit c a + countUnit c b)%nat.
Proof. induction a as [|u a IH]; simpl; [done|]. rewrite IH. lia. Qed.

(** A text free of the unit [i] at the start of a lower-cased copy comes
    from as many units of the original. *)
Lemma u16_lift_prefix (p s : list N) :
  Forall (fun c => c <> 105%N) p ->
  startsWith (toLowerCase s) p = true ->
  exists h r, s = h ++ r /\ toLowerCase h = p
              /\ Forall2 (fun u x => lowerUnit u = [x]) h p.
Proof.
  revert s; induction p as [|c p IH]; intros s Hp Hs.
  { exists [], s. by repeat split. }
  apply Forall_cons in Hp as [Hc Hp].
  destruct s as [|u s]; [done|]. cbn [toLowerCase] in Hs.
  destruct (lowerUnit_cases u) as [[-> Hl] | [Hne [x Hl]]]; rewrite Hl in Hs;
    cbn [app startsWith] in Hs; apply andb_true_iff in Hs as [Hx Hs];
    apply N.eqb_eq in Hx.
  - congruence.
  - subst x. destruct (IH s Hp Hs) as (h & r & -> & Hh & Hall).
    exists (u :: h), r. cbn [toLowerCase length app].
    rewrite Hl, Hh. repeat split. by constructor.
Qed.

Lemma head_free_of_i :
  Forall (fun c => c <> 105%N) (ofString "<head>").
Proof. repeat constructor; discriminate. Qed.

(** Where [<head>] occurs in the lower-cased copy, a head tag sits in the
    text itself, earlier by the number of U+0130 in front of it. *)
Lemma u16_lift_occurrence (s : list N) (j : nat) :
  startsWith (skipn j (toLowerCase s)) (ofString "<head>") = true ->
  exists i, headAt s i /\ j = (i + countUnit dottedI (firstn i s))%nat.
Proof.
  revert j; induction s as [|u s IH]; intros j Hj.
  { rewrite skipn_nil in Hj. done. }
  destruct j as [|j].
  - rewrite skipn_O in Hj.
    destruct (u16_lift_prefix _ _ head_free_of_i Hj) as (h & r & Hs & Hh & _).
    exists 0%nat. split; [|done]. exists [], h, r. by rewrite Hs.
  - cbn [toLowerCase] in Hj.
    assert (Hrest : exists j', startsWith (skipn j' (toLowerCase s))
                                 (ofString "<head>") = true
              /\ S j = (S j' + (if N.eqb u dottedI then 1 else 0))%nat).
    { destruct (lowerUnit_cases u) as [[-> Hl] | [Hne [x Hl]]];
        rewrite Hl in Hj.
      - destruct j as [|j]; [done|]. exists j. split; [done|].
        rewrite N.eqb_refl. lia.
      - exists j. split; [done|]. apply N.eqb_neq in Hne. rewrite Hne. lia. }
    destruct Hrest as (j' & Hj' & Heq).
    destruct (IH j' Hj') as (i & (pre & h & post & -> & <- & Hh) & ->).
    exists (S (length pre)). split.
    + exists (u :: pre), h, post. by repeat split.
    + cbn [firstn countUnit]. lia.
Qed.

Lemma u16_occurrence (s pre h post : list N) :
  s = pre ++ h ++ post -> toLowerCase h = ofString "<head>" ->
  startsWith (skipn (length pre + countUnit dottedI pre) (toLowerCase s))
             (ofString "<head>") = true.
Proof.
  intros -> Hh. rewrite !u16_lower_app, Hh, <- u16_length_lower.
  rewrite list.drop_app_length. apply u16_startsWith_app.
Qed.

Lemma u16_count_firstn (c : N) (s : list N) (i n : nat) :
  (n <= i)%nat ->
  (countUnit c (firstn n s) <= countUnit c (firstn i s))%nat.
Proof.
  revert i n; induction s as [|u s IH]; intros i n Hle.
  { by destruct i, n. }
  destruct n as [|n]; [simpl; lia|].
  destruct i as [|i]; [lia|]. simpl.
  specialize (IH i n ltac:(lia)). lia.
Qed.

Lemma toLowerCase_nil_inv (s : list N) : toLowerCase s = [] -> s = [].
Proof.
  destruct s as [|u s]; [done|]. simpl.
  by destruct (lowerUnit_cases u) as [[_ ->] | [_ [x ->]]].
Qed.

(** The units of a head tag: five that are not [>], then [>]. *)
Lemma u16_head_units (h : list N) :
  toLowerCase h = ofString "<head>" ->
  exists c0 c1 c2 c3 c4,
    h = [c0; c1; c2; c3; c4; gtUnit]
    /\ c0 <> gtUnit /\ c1 <> gtUnit /\ c2 <> gtUnit
    /\ c3 <> gtUnit /\ c4 <> gtUnit.
Proof.
  intros Hh.
  assert (Hs : startsWith (toLowerCase h) (ofString "<head>") = true).
  { rewrite Hh. reflexivity. }
  destruct (u16_lift_prefix _ _ head_free_of_i Hs) as (h' & r & -> & Hh' & Hall).
  rewrite u16_lower_app, Hh' in Hh.
  assert (r = []) as ->.
  { apply toLowerCase_nil_inv. apply (app_inv_head (ofString "<head>")).
    by rewrite app_nil_r. }
  rewrite app_nil_r.
  assert (Hone : forall u x, lowerUnit u = [x] -> x <> gtUnit -> u <> gtUnit).
  { intros u x Hl Hx ->. rewrite lowerUnit_of_gt in Hl. congruence. }
  clear Hs Hh Hh'.
  change (ofString "<head>") with [60; 104; 101; 97; 100; 62]%N in Hall.
  repeat match goal with
    | H : Forall2 _ _ (_ :: _) |- _ =>
        apply Forall2_cons_inv_r in H as (? & ? & ? & H & ->)
    | H : Forall2 _ _ [] |- _ => apply Forall2_nil_inv_r in H as ->
    end.
  match goal with
  | H : lowerUnit _ = [62%N] |- _ => apply lowerUnit_gt in H as ->
  end.
  do 5 eexists. split; [reflexivity|].
  repeat split; eapply Hone; try eassumption; discriminate.
Qed.

Lemma u16_slice_prefix (s : list N) (k : nat) :
  (k <= length s)%nat -> slice s 0 (Some (Z.of_nat k)) = firstn k s.
Proof.
  intros Hk. unfold slice.
  assert (relIndex (Z.of_nat (length s)) 0 = 0%nat) as ->.
  { unfold relIndex. simpl. lia. }
  assert (relIndex (Z.of_nat (length s)) (Z.of_nat k) = k) as ->.
  { unfold relIndex. destruct (Z.of_nat k <? 0) eqn:E; lia. }
  by rewrite Nat.sub_0_r.
Qed.

Lemma u16_slice_suffix (s : list N) (k : nat) :
  (k <= length s)%nat -> slice s (Z.of_nat k) None = skipn k s.
Proof.
  intros Hk. unfold slice.
  assert (relIndex (Z.of_nat (length s)) (Z.of_nat k) = k) as ->.
  { unfold relIndex. destruct (Z.of_nat k <? 0) eqn:E; lia. }
  apply list.take_ge. rewrite list.length_drop. lia.
Qed.

(** [headAt] can be decided by looking at the lower-cased rest. *)
Lemma u16_headAt_iff (s : list N) (n : nat) :
  headAt s n
  <-> (n <= length s)%nat
      /\ startsWith (toLowerCase (skipn n s)) (ofString "<head>") = true.
Proof.
  split.
  - intros (pre & h & post & -> & <- & Hh). split.
    + rewrite length_app. lia.
    + rewrite list.drop_app_length, u16_lower_app, Hh.
      apply u16_startsWith_app.
  - intros [Hn Hs].
    destruct (u16_lift_prefix _ _ head_free_of_i Hs) as (h & r & Hr & Hh & _).
    exists (firstn n s), h, r. repeat split; [|by rewrite length_firstn; lia|done].
    by rewrite <- Hr, firstn_skipn.
Qed.

Lemma u16_search_some (pat s : list N) (j k : nat) :
  startsWith (skipn j s) pat = true -> search pat s k <> None.
Proof.
  revert j k; induction s as [|c s IH]; intros j k Hj.
  - rewrite skipn_nil in Hj. cbn [search]. by rewrite Hj.
  - cbn [search]. destruct (startsWith (c :: s) pat) eqn:E; [done|].
    destruct j as [|j]; [rewrite skipn_O in Hj; congruence|].
    rewrite skipn_cons in Hj. by apply (IH j).
Qed.

(** A markup whose lower-cased copy holds no [<head>] holds no head tag. *)
Lemma u16_search_no_head (s : list N) :
  search (ofString "<head>") (toLowerCase s) 0 = None ->
  forall n, ~ headAt s n.
Proof.
  intros Hnone n (pre & h & post & Hs & _ & Hh).
  pose proof (u16_occurrence s pre h post Hs Hh) as Ho.
  by apply (u16_search_some _ _ _ 0) in Ho.
Qed.

Lemma u16_indexOf_first (s pat : list N) (n : nat) :
  (forall j, (j < n)%nat -> startsWith (skipn j s) pat = false) ->
  startsWith (skipn n s) pat = true ->
  indexOf s pat 0 = Z.of_nat n.
Proof.
  intros Hlt Hn. unfold indexOf.
  assert (Z.to_nat (Z.min (Z.max 0 0) (Z.of_nat (length s))) = 0%nat) as ->
    by lia.
  rewrite skipn_O. by rewrite (u16_search_first pat s 0 n Hlt Hn).
Qed.

Lemma u16_indexOf_none (s pat : list N) :
  (forall j, startsWith (skipn j s) pat = false) -> indexOf s pat 0 = -1.
Proof.
  intros Hall. unfold indexOf.
  assert (Z.to_nat (Z.min (Z.max 0 0) (Z.of_nat (length s))) = 0%nat) as ->
    by lia.
  rewrite skipn_O. by rewrite (u16_search_none pat s 0 Hall).
Qed.

(** The first [>] at or after a position: the units in between are
    skipped. *)
Lemma u16_indexOf_gt (a b c : list N) :
  Forall (fun u => u <> gtUnit) b ->
  indexOf (a ++ b ++ gtUnit :: c) [gtUnit] (Z.of_nat (length a))
  = Z.of_nat (length a + length b).
Proof.
  intros Hb. unfold indexOf.
  assert (Z.to_nat (Z.min (Z.max (Z.of_nat (length a)) 0)
                      (Z.of_nat (length (a ++ b ++ gtUnit :: c))))
          = length a) as ->.
  { rewrite !length_app. lia. }
  rewrite list.drop_app_length.
  rewrite (u16_search_first [gtUnit] (b ++ gtUnit :: c) (length a) (length b));
    [done | |].
  - clear a. induction Hb as [|u b Hu Hb IH]; intros j Hj; [simpl in Hj; lia|].
    destruct j as [|j].
    + rewrite skipn_O. cbn [app startsWith].
      apply N.eqb_neq in Hu. by rewrite Hu.
    + cbn [app]. rewrite skipn_cons. apply IH. simpl in Hj. lia.
  - rewrite list.drop_app_length. cbn [startsWith]. by rewrite N.eqb_refl.
Qed.

(** Where the first head tag is found in the lower-cased copy. *)
Lemma u16_first_head (s pre h post : list N) :
  s = pre ++ h ++ post ->
  toLowerCase h = ofString "<head>" ->
  (forall n, (n < length pre)%nat -> ~ headAt s n) ->
  indexOf (toLowerCase s) (ofString "<head>") 0
  = Z.of_nat (length pre + countUnit dottedI pre).
Proof.
  intros Hs Hh Hfirst. apply u16_indexOf_first.
  - intros j Hj.
    destruct (startsWith (skipn j (toLowerCase s)) (ofString "<head>"))
      eqn:E; [|done]. exfalso.
    destruct (u16_lift_occurrence s j E) as (i & Hi & ->).
    destruct (Nat.lt_ge_cases i (length pre)) as [Hlt|Hge];
      [exact (Hfirst i Hlt Hi)|].
    pose proof (u16_count_firstn dottedI s i (length pre) Hge) as Hc.
    rewrite Hs in Hc at 1. rewrite list.take_app_length in Hc. lia.
  - by apply (u16_occurrence s pre h post).
Qed.

Lemma u16_no_head (s : list N) :
  (forall n, ~ headAt s n) ->
  indexOf (toLowerCase s) (ofString "<head>") 0 = -1.
Proof.
  intros Hnone. apply u16_indexOf_none. intros j.
  destruct (startsWith (skipn j (toLowerCase s)) (ofString "<head>"))
    eqn:E; [|done]. exfalso.
  destruct (u16_lift_occurrence s j E) as (i & Hi & _).
  exact (Hnone i Hi).
Qed.

End Utf16Facts.

(** C2: the claim asks for the tag right after the [>] of the first head
    tag; the code takes the index of [<head>] in the lower-cased copy and
    uses it in the markup itself (lines 126-128).  With six U+0130 in
    front, the copy is six units longer there: the head tag sits at 6, the
    index found is 12, the search for [>] starts behind the head tag and
    ends at 18, and the base tag lands after [<title>], not right after
    [<head>]. *)
Theorem inject_head_shifted_by_dotted_I :
  Utf16.removeBaseTags dottedMarkup = dottedClean
  /\ Utf16.headAt dottedClean 6
  /\ (forall n, (n < 6)%nat -> ~ Utf16.headAt dottedClean n)
  /\ Utf16.indexOf (Utf16.toLowerCase dottedClean) (Utf16.ofString "<head>") 0
     = 12
  /\ Utf16.indexOf dottedClean [Utf16.gtUnit] 12 = 18
  /\ Utf16.injectBaseHref dottedMarkup sampleBaseTag
     = repeat Utf16.dottedI 6 ++ Utf16.ofString "<head><title>"
         ++ sampleBaseTag ++ Utf16.ofString "T</title></head>"
  /\ Utf16.injectBaseHref dottedMarkup sampleBaseTag
     <> repeat Utf16.dottedI 6 ++ Utf16.ofString "<head>"
          ++ sampleBaseTag ++ Utf16.ofString "<title>T</title></head>".
Proof.
  split; [vm_compute; reflexivity|]. split.
  { exists (repeat Utf16.dottedI 6), (Utf16.ofString "<head>"),
      (Utf16.ofString "<title>T</title></head>").
    repeat split; vm_compute; reflexivity. }
  split.
  { intros n Hn Hat. apply u16_headAt_iff in Hat as [_ Hat].
    do 6 (destruct n as [|n]; [vm_compute in Hat; discriminate|]). lia. }
  split; [vm_compute; reflexivity|]. split; [vm_compute; reflexivity|].
  split; [vm_compute; reflexivity|]. vm_compute. discriminate.
Qed.

(** X22: in UTF-16 code units, with the lower-casing that turns U+0130 into
    two units: when fewer than six U+0130 stand in front of the first
    case-insensitive [<head>] of the cleaned markup, a non-empty tag is
    inserted right after that tag's [>]; when the cleaned markup holds no
    such tag, the tag is put in front of it. *)
Theorem inject_wide_after_first_head (raw tag pre h post : list N) :
  tag <> [] ->
  Utf16.removeBaseTags raw = pre ++ h ++ post ->
  Utf16.toLowerCase h = Utf16.ofString "<head>" ->
  (forall n, (n < length pre)%nat ->
             ~ Utf16.headAt (Utf16.removeBaseTags raw) n) ->
  (Utf16.countUnit Utf16.dottedI pre < 6)%nat ->
  Utf16.injectBaseHref raw tag = pre ++ h ++ tag ++ post.
Proof.
  intros Htag Hclean Hh Hfirst Hk.
  destruct tag as [|t tag]; [done|].
  unfold Utf16.injectBaseHref.
  remember (Utf16.removeBaseTags raw) as clean eqn:Hc. clear Hc raw.
  cbv zeta.
  rewrite (u16_first_head clean pre h post Hclean Hh Hfirst).
  remember (Utf16.countUnit Utf16.dottedI pre) as k eqn:Ek. clear Ek.
  destruct (u16_head_units h Hh)
    as (c0 & c1 & c2 & c3 & c4 & -> & H0 & H1 & H2 & H3 & H4).
  assert (Hne : forall n : nat, negb (Z.of_nat n =? -1) = true).
  { intros n. apply negb_true_iff, Z.eqb_neq. lia. }
  rewrite Hne.
  assert (Hgt : Utf16.indexOf clean [Utf16.gtUnit] (Z.of_nat (length pre + k))
                = Z.of_nat (length pre + 5)).
  { subst clean.
    assert (Hall : Forall (fun u => u <> Utf16.gtUnit) [c0; c1; c2; c3; c4])
      by (repeat constructor; assumption).
    pose proof (u16_indexOf_gt (pre ++ firstn k [c0; c1; c2; c3; c4])
                  (skipn k [c0; c1; c2; c3; c4]) post
                  (Forall_drop _ _ _ Hall)) as Hi.
    assert (Hlen : length (pre ++ firstn k [c0; c1; c2; c3; c4])
                   = (length pre + k)%nat).
    { rewrite length_app, length_firstn. simpl. lia. }
    rewrite Hlen in Hi.
    assert (Hsk : length (skipn k [c0; c1; c2; c3; c4]) = (5 - k)%nat).
    { by rewrite list.length_drop. }
    rewrite Hsk in Hi.
    replace (length pre + k + (5 - k))%nat with (length pre + 5)%nat in Hi
      by lia.
    rewrite <- Hi. f_equal.
    rewrite <- app_assoc. f_equal.
    rewrite (app_assoc (firstn k _)), firstn_skipn. reflexivity. }
  rewrite Hgt, Hne.
  replace (Z.of_nat (length pre + 5) + 1) with (Z.of_nat (length pre + 6))
    by lia.
  assert (Hlen : (length pre + 6 <= length clean)%nat).
  { subst clean. rewrite !length_app. simpl. lia. }
  rewrite (u16_slice_prefix clean _ Hlen), (u16_slice_suffix clean _ Hlen).
  subst clean.
  replace (pre ++ [c0; c1; c2; c3; c4; Utf16.gtUnit] ++ post)
    with ((pre ++ [c0; c1; c2; c3; c4; Utf16.gtUnit]) ++ post)
    by (by rewrite <- app_assoc).
  assert (Hl : length (pre ++ [c0; c1; c2; c3; c4; Utf16.gtUnit])
               = (length pre + 6)%nat).
  { rewrite length_app. simpl. lia. }
  rewrite <- Hl, list.take_app_length, list.drop_app_length.
  by rewrite <- !app_assoc.
Qed.

Lemma inject_wide_after_first_head_witness :
  Utf16.injectBaseHref
    (repeat Utf16.dottedI 5
       ++ Utf16.ofString "<HeAd><base href=x><title>T</title></head>")
    sampleBaseTag
  = repeat Utf16.dottedI 5 ++ Utf16.ofString "<HeAd>" ++ sampleBaseTag
      ++ Utf16.ofString "<title>T</title></head>".
Proof.
  apply (inject_wide_after_first_head _ sampleBaseTag
           (repeat Utf16.dottedI 5) (Utf16.ofString "<HeAd>")
           (Utf16.ofString "<title>T</title></head>")).
  - discriminate.
  - reflexivity.
  - reflexivity.
  - intros n Hn Hat. apply u16_headAt_iff in Hat as [_ Hat].
    do 5 (destruct n as [|n]; [vm_compute in Hat; discriminate|]).
    simpl in Hn. lia.
  - simpl. lia.
Defined.

(** X23: in UTF-16 code units, a markup whose cleaned text holds no
    case-insensitive [<head>] gets a non-empty tag in front of the cleaned
    text, whatever units it holds. *)
Theorem inject_wide_no_head (raw tag : list N) :
  tag <> [] ->
  (forall n, ~ Utf16.headAt (Utf16.removeBaseTags raw) n) ->
  Utf16.injectBaseHref raw tag = tag ++ Utf16.removeBaseTags raw.
Proof.
  intros Htag Hnone. destruct tag as [|t tag]; [done|].
  unfold Utf16.injectBaseHref. cbv zeta.
  by rewrite (u16_no_head _ Hnone).
Qed.

Lemma inject_wide_no_head_witness :
  Utf16.injectBaseHref
    (repeat Utf16.dottedI 7 ++ Utf16.ofString "<head lang=en><base href=x>")
    sampleBaseTag
  = sampleBaseTag ++ repeat Utf16.dottedI 7 ++ Utf16.ofString "<head lang=en>".
Proof.
  apply (inject_wide_no_head
           (repeat Utf16.dottedI 7
              ++ Utf16.ofString "<head lang=en><base href=x>")
           sampleBaseTag).
  - discriminate.
  - apply u16_search_no_head. reflexivity.
Defined.
Section BridgeFacts.

Lemma ofString_app (a b : string) :
  Utf16.ofString (a +++ b) = Utf16.ofString a ++ Utf16.ofString b.
Proof. induction a as [|c a IH]; simpl; [done | by rewrite IH]. Qed.

Lemma length_ofString (s : string) :
  length (Utf16.ofString s) = String.length s.
Proof. induction s as [|c s IH]; simpl; [done | by rewrite IH]. Qed.

Lemma ofString_inj (a b : string) :
  Utf16.ofString a = Utf16.ofString b -> a = b.
Proof.
  revert b; induction a as [|c a IH]; intros [|d b] Heq; try done.
  simpl in Heq. injection Heq as Hc Hr.
  apply (f_equal ascii_of_N) in Hc. rewrite !ascii_N_embedding in Hc.
  by rewrite Hc, (IH b Hr).
Qed.

Lemma eqb_N_of_ascii (a b : ascii) :
  N.eqb (N_of_ascii a) (N_of_ascii b) = Ascii.eqb a b.
Proof.
  destruct (Ascii.eqb_spec a b) as [->|Hne]; [apply N.eqb_refl|].
  apply N.eqb_neq. intros Heq. apply Hne.
  apply (f_equal ascii_of_N) in Heq. by rewrite !ascii_N_embedding in Heq.
Qed.

(** On a unit below 256 the two lower-casings agree. *)
Lemma lowerUnit_ascii (c : ascii) :
  Utf16.lowerUnit (N_of_ascii c) = [N_of_ascii (lowerChar c)].
Proof.
  destruct c as [[] [] [] [] [] [] [] []]; reflexivity.
Qed.

Lemma toLowerCase_ofString (s : string) :
  Utf16.toLowerCase (Utf16.ofString s) = Utf16.ofString (toLowerCase s).
Proof.
  induction s as [|c s IH]; [done|].
  cbn [Utf16.ofString Utf16.toLowerCase toLowerCase].
  by rewrite lowerUnit_ascii, IH.
Qed.

Lemma startsWith_ofString (s pat : string) :
  Utf16.startsWith (Utf16.ofString s) (Utf16.ofString pat) = startsWith s pat.
Proof.
  revert s; induction pat as [|p pat IH]; intros [|c s]; try done.
  cbn [Utf16.ofString Utf16.startsWith startsWith].
  by rewrite eqb_N_of_ascii, IH.
Qed.

Lemma search_ofString (pat s : string) (k : nat) :
  Utf16.search (Utf16.ofString pat) (Utf16.ofString s) k = search pat s k.
Proof.
  revert k; induction s as [|c s IH]; intros k.
  - cbn [Utf16.ofString Utf16.search search].
    by rewrite <- (startsWith_ofString "" pat).
  - cbn [Utf16.search search Utf16.ofString].
    rewrite <- (startsWith_ofString (String c s) pat).
    cbn [Utf16.ofString]. by rewrite IH.
Qed.

Lemma skipn_ofString (n : nat) (s : string) :
  skipn n (Utf16.ofString s) = Utf16.ofString (JS.drop n s).
Proof.
  revert s; induction n as [|n IH]; intros [|c s]; try done.
  cbn [Utf16.ofString JS.drop]. by rewrite skipn_cons, IH.
Qed.

Lemma firstn_ofString (n : nat) (s : string) :
  firstn n (Utf16.ofString s) = Utf16.ofString (JS.take n s).
Proof.
  revert s; induction n as [|n IH]; intros [|c s]; try done.
  cbn [Utf16.ofString JS.take firstn]. by rewrite IH.
Qed.

Lemma indexOf_ofString (s pat : string) (from : Z) :
  Utf16.indexOf (Utf16.ofString s) (Utf16.ofString pat) from
  = indexOf s pat from.
Proof.
  unfold Utf16.indexOf, indexOf.
  by rewrite length_ofString, skipn_ofString, search_ofString.
Qed.

Lemma slice_ofString (s : string) (b : Z) (e : option Z) :
  Utf16.slice (Utf16.ofString s) b e = Utf16.ofString (slice s b e).
Proof.
  unfold Utf16.slice, slice.
  by rewrite length_ofString, skipn_ofString, firstn_ofString.
Qed.

Lemma hasUnit_ofString (c : ascii) (s : string) :
  Utf16.hasUnit (N_of_ascii c) (Utf16.ofString s) = hasChar c s.
Proof.
  induction s as [|x s IH]; [done|].
  cbn [Utf16.ofString Utf16.hasUnit hasChar].
  by rewrite eqb_N_of_ascii, IH.
Qed.

(** The units that match a unit of [<base] under the [i] flag. *)
Lemma foldsTo_base (c : ascii) :
  Utf16.foldsTo 60 (N_of_ascii c) = Ascii.eqb (lowerChar c) "<"
  /\ Utf16.foldsTo 98 (N_of_ascii c) = Ascii.eqb (lowerChar c) "b"
  /\ Utf16.foldsTo 97 (N_of_ascii c) = Ascii.eqb (lowerChar c) "a"
  /\ Utf16.foldsTo 115 (N_of_ascii c) = Ascii.eqb (lowerChar c) "s"
  /\ Utf16.foldsTo 101 (N_of_ascii c) = Ascii.eqb (lowerChar c) "e".
Proof.
  destruct c as [[] [] [] [] [] [] [] []]; repeat split; reflexivity.
Qed.

Lemma baseTagStarts_ofString (s : string) :
  Utf16.baseTagStarts (Utf16.ofString s) = baseTagStarts s.
Proof.
  unfold Utf16.baseTagStarts, baseTagStarts.
  change Utf16.gtUnit with (N_of_ascii gt). rewrite hasUnit_ofString.
  f_equal.
  change (Utf16.ofString "<base") with [60; 98; 97; 115; 101]%N.
  destruct s as [|c0 [|c1 [|c2 [|c3 [|c4 s]]]]];
    cbn [Utf16.ofString Utf16.matchesCI matchesCI];
    repeat match goal with
      | |- context [Utf16.foldsTo _ (N_of_ascii ?c)] =>
          destruct (foldsTo_base c) as (H0 & H1 & H2 & H3 & H4);
          rewrite ?H0, ?H1, ?H2, ?H3, ?H4; clear H0 H1 H2 H3 H4
      end; reflexivity.
Qed.

Lemma removeBaseGo_ofString (inTag : bool) (s : string) :
  Utf16.removeBaseGo inTag (Utf16.ofString s)
  = Utf16.ofString (removeBaseGo inTag s).
Proof.
  revert inTag; induction s as [|c s IH]; intros inTag; [done|].
  cbn [Utf16.removeBaseGo removeBaseGo Utf16.ofString].
  change (N_of_ascii c :: Utf16.ofString s) with (Utf16.ofString (String c s)).
  rewrite baseTagStarts_ofString.
  change Utf16.gtUnit with (N_of_ascii gt). rewrite eqb_N_of_ascii.
  destruct inTag.
  - destruct (Ascii.eqb c gt); apply IH.
  - destruct (baseTagStarts (String c s)); [apply IH|].
    cbn [Utf16.ofString]. by rewrite IH.
Qed.

Lemma u16_inject_unfold (raw tag : list N) :
  tag <> [] ->
  Utf16.injectBaseHref raw tag
  = let cleanHtml := Utf16.removeBaseTags raw in
    let headTagStart :=
      Utf16.indexOf (Utf16.toLowerCase cleanHtml) (Utf16.ofString "<head>") 0 in
    if negb (headTagStart =? -1) then
      let headTagEndPos := Utf16.indexOf cleanHtml [Utf16.gtUnit] headTagStart in
      if negb (headTagEndPos =? -1) then
        Utf16.slice cleanHtml 0 (Some (headTagEndPos + 1)) ++ tag
          ++ Utf16.slice cleanHtml (headTagEndPos + 1) None
      else tag ++ cleanHtml
    else tag ++ cleanHtml.
Proof. by destruct tag. Qed.

End BridgeFacts.

(** X25: on markup and tags of units below 256 the injector on UTF-16
    code units and the injector on 8-bit strings compute the same text:
    what is proved of the second holds of the program on Latin-1 input. *)
Theorem inject_wide_agrees_on_latin1 (rawHtml baseHrefTag : string) :
  Utf16.injectBaseHref (Utf16.ofString rawHtml) (Utf16.ofString baseHrefTag)
  = Utf16.ofString (injectBaseHref rawHtml baseHrefTag).
Proof.
  destruct baseHrefTag as [|t tag]; [done|].
  rewrite u16_inject_unfold by done.
  unfold injectBaseHref. cbn [String.eqb]. cbv zeta.
  unfold Utf16.removeBaseTags, removeBaseTags.
  rewrite removeBaseGo_ofString, toLowerCase_ofString, indexOf_ofString.
  change [Utf16.gtUnit] with (Utf16.ofString ">").
  rewrite indexOf_ofString, !slice_ofString.
  destruct (negb _); [|by rewrite ofString_app].
  destruct (negb _); by rewrite !ofString_app.
Qed.
